(** * Directory Tool (React front end): parser, skeleton builder, auto-assignment
      and simulated batch operations

    Shallow embedding of
      - [src/hooks/useFileOperations.ts]: [parseStructureDefinition],
        [simulateFileOperation], [createPackage];
      - [components/enhanced/SmartOrganizeTab.tsx]: [addFilesToStage],
        [buildTargetStructure], [autoAssignFiles], [organizeAssignedFiles].

    Conventions.
      - A JavaScript string is the list of its UTF-16 code units.
      - A JavaScript number is an exact rational ([Q]) or a natural number
        where the code only counts; rounding of doubles is not modelled.
      - [Math.random()] is a stream [rand : nat -> Q] read through a cursor,
        [Date.now()] is an explicit argument.
      - Objects that the code mutates through shared references (the staged
        files) live in a store addressed by location; slots hold locations. *)

From Stdlib Require Import String Ascii DecimalString DecimalNat.
From Stdlib Require Import Bool Arith NArith ZArith QArith Qround Lia Lqa List.
Import ListNotations.

Close Scope Q_scope.
Open Scope nat_scope.

(* ================================================================== *)
(** ** The string primitives of the JavaScript runtime used by the code *)
(* ================================================================== *)

Module JS.

Definition codeUnit := N.
Definition jsstring := list codeUnit.

(** An ASCII literal as a sequence of code units. *)
Definition lit (s : string) : jsstring :=
  map N_of_ascii (list_ascii_of_string s).

Definition LF : codeUnit := 10%N.
Definition SLASH : codeUnit := 47%N.
Definition HASH : codeUnit := 35%N.
Definition DOT : codeUnit := 46%N.

Definition eqb (a b : jsstring) : bool :=
  if list_eq_dec N.eq_dec a b then true else false.

(** ECMAScript [WhiteSpace] and [LineTerminator] code points, the set
    stripped by [String.prototype.trim] and [trimStart]. *)
Definition isWhiteSpace (c : codeUnit) : bool :=
  existsb (N.eqb c)
    [9; 10; 11; 12; 13; 32; 160; 5760; 8232; 8233; 8239; 8287; 12288; 65279]%N
  || ((8192 <=? c)%N && (c <=? 8202)%N).

Fixpoint trimStart (s : jsstring) : jsstring :=
  match s with
  | [] => []
  | c :: r => if isWhiteSpace c then trimStart r else s
  end.

Definition trimEnd (s : jsstring) : jsstring := rev (trimStart (rev s)).

Definition trim (s : jsstring) : jsstring := trimEnd (trimStart s).

(** [s.split(sep)] for a separator of one code unit. *)
Fixpoint split (sep : codeUnit) (s : jsstring) : list jsstring :=
  match s with
  | [] => [[]]
  | c :: r =>
      if (c =? sep)%N then [] :: split sep r
      else match split sep r with
           | h :: t => (c :: h) :: t
           | [] => [[c]]
           end
  end.

Fixpoint startsWith (s p : jsstring) {struct p} : bool :=
  match p, s with
  | [], _ => true
  | _ :: _, [] => false
  | a :: p', b :: s' => (a =? b)%N && startsWith s' p'
  end.

Definition endsWith (s p : jsstring) : bool := startsWith (rev s) (rev p).

Fixpoint includes (s p : jsstring) : bool :=
  startsWith s p ||
  match s with
  | [] => false
  | _ :: r => includes r p
  end.

(** [s.replace(/\/$/, '')]: the pattern can only match a slash that is the
    last code unit of the input. *)
Definition replaceTrailingSlash (s : jsstring) : jsstring :=
  match rev s with
  | c :: r => if (c =? SLASH)%N then rev r else s
  | [] => s
  end.

(** Truthiness of a string value, and [a || b] on strings. *)
Definition truthy (s : jsstring) : bool :=
  match s with [] => false | _ :: _ => true end.

Definition orElse (a b : jsstring) : jsstring := if truthy a then a else b.

(** [Array.prototype.pop] on the result of a [split] (never empty). *)
Definition pop (parts : list jsstring) : jsstring := last parts [].

(** [Number.prototype.toString] on a non-negative integer. *)
Definition toString (n : nat) : jsstring :=
  lit (NilEmpty.string_of_uint (Nat.to_uint n)).

(** The ASCII part of [String.prototype.toLowerCase]; used only to run the
    code on ASCII inputs, the general results are stated for an arbitrary
    lower-casing function. *)
Definition asciiLowerUnit (c : codeUnit) : codeUnit :=
  if ((65 <=? c) && (c <=? 90))%N then (c + 32)%N else c.

Definition asciiLower (s : jsstring) : jsstring := map asciiLowerUnit s.

End JS.

Import JS.
Arguments lit s%_string.

(* ================================================================== *)
(** ** useFileOperations.ts *)
(* ================================================================== *)

Module FileOperations.

Inductive ItemType := file | directory.

Record DirectoryStructureItem := mkItem {
  path : jsstring;
  type : ItemType;
  depth : nat;
  name : jsstring
}.

(** [parseStructureDefinition]: the [filter] over the split lines, then the
    [forEach] that pushes one item per line with a non-empty clean name. *)
Definition parseLine (items : list DirectoryStructureItem) (line : jsstring)
  : list DirectoryStructureItem :=
  let leadingSpaces := length line - length (trimStart line) in
  let depth := Nat.div leadingSpaces 2 in
  let name := trim line in
  let isDirectory := endsWith name (lit "/") in
  let cleanName := replaceTrailingSlash name in
  if truthy cleanName then
    items ++ [ {| path := cleanName;
                  type := if isDirectory then directory else file;
                  depth := depth;
                  name := cleanName |} ]
  else items.

Definition parseStructureDefinition (definition : jsstring)
  : list DirectoryStructureItem :=
  let lines :=
    filter (fun line => truthy (trim line)
                        && negb (startsWith (trim line) (lit "#")))
           (split LF definition) in
  fold_left parseLine lines [].

Module FileItem.
Record t := mk {
  id : jsstring;
  name : jsstring;
  path : jsstring;
  size : Z;
  type : jsstring;
  modified : jsstring;
  isDirectory : option bool
}.
End FileItem.

(** *** The operation log of the hook *)

Inductive OpStatus := success | error | pending.

Module Operation.
Record t := mk {
  id : jsstring;
  type : jsstring;
  timestamp : jsstring;
  details : jsstring;
  status : OpStatus
}.
End Operation.

Record HookState := mkHook {
  operations : list Operation.t;
  isProcessing : bool
}.

(** A thrown value: an [Error] instance with its message, or anything else. *)
Inductive JsThrown :=
| ErrorInstance (message : jsstring)
| OtherValue.

(** What the loop reads of an element of [items : any[]]: [None] is a
    [null] or [undefined] element, on which the property access throws;
    an absent property is [None]. *)
Record ItemView := mkView {
  item_name : option jsstring;
  item_path : option jsstring
}.

Definition propOr (p : option jsstring) (fallback : jsstring) : jsstring :=
  match p with
  | Some v => orElse v fallback
  | None => fallback
  end.

Definition ProgressCallback := Q -> jsstring -> option JsThrown.

Inductive OpResult :=
| Succeeded (processedCount : nat)
| Failed (err : JsThrown).

Definition resultSuccess (r : OpResult) : bool :=
  match r with Succeeded _ => true | Failed _ => false end.

(** An entry of the plan handed to [organizeFiles] and [createPackage]. *)
Record Assignment (F : Type) := mkAssignment {
  source : F;
  target : jsstring
}.
Arguments mkAssignment {F}.
Arguments source {F}.
Arguments target {F}.

(** The file handed to the browser: the parts and MIME type of the
    [Blob] and the [download] attribute of the anchor. *)
Record Download := mkDownload {
  blobParts : list jsstring;
  blobType : jsstring;
  download : jsstring
}.

Section Hook.

(** Supplied by the runtime: [Date.prototype.toISOString] of the instant a
    clock reading denotes, and the message of the [TypeError] raised by a
    property access on [null] or [undefined]. *)
Variable toISOString : nat -> jsstring.
Variable typeErrorMessage : jsstring.

(** [addOperation]; its two clock reads are taken at the same instant. *)
Definition addOperation (now : nat) (type details : jsstring)
           (status : OpStatus) (ops : list Operation.t)
  : jsstring * list Operation.t :=
  let newOperation :=
    Operation.mk (toString now) type (toISOString now) details status in
  (Operation.id newOperation, newOperation :: ops).

Definition updateOperation (id : jsstring) (status : OpStatus)
           (details : jsstring) (ops : list Operation.t)
  : list Operation.t :=
  map (fun op =>
         if JS.eqb (Operation.id op) id
         then Operation.mk (Operation.id op) (Operation.type op)
                           (Operation.timestamp op) details status
         else op) ops.

(** The body of the [for] loop from index [i] on; [total] is
    [items.length].  Returns the calls made to [onProgress] and the value
    thrown, if any, which ends the loop.  The awaited delay of
    [100 + Math.random() * 200] milliseconds has no effect on the result. *)
Fixpoint processItems (total i : nat) (rest : list (option ItemView))
         (onProgress : option ProgressCallback)
  : list (Q * jsstring) * option JsThrown :=
  match rest with
  | [] => ([], None)
  | None :: _ => ([], Some (ErrorInstance typeErrorMessage))
  | Some it :: rest' =>
      let progress :=
        ((inject_Z (Z.of_nat (i + 1)) / inject_Z (Z.of_nat total)) * 100)%Q in
      let message :=
        lit "Processing " ++ toString (i + 1) ++ lit "/" ++ toString total
        ++ lit ": "
        ++ propOr (item_name it) (propOr (item_path it) (lit "item")) in
      match onProgress with
      | None => processItems total (i + 1) rest' onProgress
      | Some cb =>
          match cb progress message with
          | Some e => ([(progress, message)], Some e)
          | None =>
              let (calls, thrown) :=
                processItems total (i + 1) rest' onProgress in
              ((progress, message) :: calls, thrown)
          end
      end
  end.

Definition simulateFileOperation (now : nat) (operationType : jsstring)
           (items : list (option ItemView))
           (onProgress : option ProgressCallback) (st : HookState)
  : OpResult * list (Q * jsstring) * HookState :=
  let (operationId, ops) :=
    addOperation now operationType
      (lit "Processing " ++ toString (length items) ++ lit " items")
      pending (operations st) in
  let (calls, thrown) := processItems (length items) 0 items onProgress in
  match thrown with
  | None =>
      (Succeeded (length items), calls,
       mkHook (updateOperation operationId success
                 (lit "Successfully processed " ++ toString (length items)
                  ++ lit " items") ops)
              false)
  | Some e =>
      (Failed e, calls,
       mkHook (updateOperation operationId error
                 (lit "Failed: "
                  ++ match e with
                     | ErrorInstance m => m
                     | OtherValue => lit "Unknown error"
                     end) ops)
              false)
  end.

(** *** The operations built on [simulateFileOperation] *)

Definition viewItem (it : DirectoryStructureItem) : option ItemView :=
  Some (mkView (Some (name it)) (Some (path it))).

Definition viewFile (f : FileItem.t) : option ItemView :=
  Some (mkView (Some (FileItem.name f)) (Some (FileItem.path f))).

Definition createStructure (now : nat) (definition baseDirectory : jsstring)
           (onProgress : option ProgressCallback) (st : HookState) :=
  let items := parseStructureDefinition definition in
  simulateFileOperation now (lit "create_structure")
                        (map viewItem items) onProgress st.

Definition moveFiles (now : nat) (files : list FileItem.t)
           (targetDirectory : jsstring)
           (onProgress : option ProgressCallback) (st : HookState) :=
  simulateFileOperation now (lit "move_files") (map viewFile files)
                        onProgress st.

Inductive Mode := copy | move.

Definition modeName (m : Mode) : jsstring :=
  match m with copy => lit "copy" | move => lit "move" end.

(** An assignment object has neither a [name] nor a [path] property. *)
Definition viewAssignment {F} (a : Assignment F) : option ItemView :=
  Some (mkView None None).

Definition organizeFiles {F} (now : nat)
           (assignments : list (Assignment F)) (baseDirectory : jsstring)
           (operation : Mode) (onProgress : option ProgressCallback)
           (st : HookState) :=
  simulateFileOperation now (lit "organize_" ++ modeName operation)
                        (map viewAssignment assignments) onProgress st.

Definition packageText : jsstring :=
  lit "# Package Contents" ++ [LF; LF]
  ++ lit "This is a simulated package file.".

Definition createPackage {F} (now : nat) (assignments : list (Assignment F))
           (packageName : jsstring) (onProgress : option ProgressCallback)
           (st : HookState)
  : OpResult * option Download * list (Q * jsstring) * HookState :=
  let '(result, calls, st') :=
    simulateFileOperation now (lit "create_package")
                          (map viewAssignment assignments) onProgress st in
  (result,
   if resultSuccess result
   then Some (mkDownload [packageText] (lit "application/zip")
                         (packageName ++ lit ".zip"))
   else None,
   calls, st').

(** *** undoLastOperation *)

Definition isSuccess (op : Operation.t) : bool :=
  match Operation.status op with success => true | _ => false end.

(** Returns whether an operation was found; nothing is reverted, the log
    only gains an [undo] entry. *)
Definition undoLastOperation (now : nat) (st : HookState)
  : bool * HookState :=
  match find isSuccess (operations st) with
  | None => (false, st)
  | Some lastOperation =>
      let (_, ops) :=
        addOperation now (lit "undo")
                     (lit "Undoing: " ++ Operation.type lastOperation)
                     success (operations st) in
      (true, mkHook ops (isProcessing st))
  end.

End Hook.

End FileOperations.

Import FileOperations.

(* ================================================================== *)
(** ** DirectoryContext.tsx: the shared operation log *)
(* ================================================================== *)

Module DirectoryContext.

Record Operation := mk {
  id : jsstring;
  operation : jsstring;
  details : jsstring;
  status : OpStatus;
  timestamp : jsstring
}.

Definition addOperation (toISOString : nat -> jsstring) (now : nat)
           (operation details : jsstring) (status : OpStatus)
           (ops : list Operation) : list Operation :=
  mk (toString now) operation details status (toISOString now) :: ops.

End DirectoryContext.

(* ================================================================== *)
(** ** SmartOrganizeTab.tsx *)
(* ================================================================== *)

Module SmartOrganize.

Module StagedFile.
Inductive Status := staged | assigned | organized.
Record t := mk {
  id : jsstring;
  name : jsstring;
  path : jsstring;
  size : Z;
  type : jsstring;
  status : Status;
  targetPath : option jsstring
}.
Definition isStaged (f : t) : bool :=
  match status f with staged => true | _ => false end.
End StagedFile.

(** A reference to a staged-file object: its position in the store. *)
Definition loc := nat.

Module TargetSlot.
Inductive Status := empty | assigned | autoMatched.
Record t := mk {
  id : jsstring;
  path : jsstring;
  type : ItemType;
  assignedFile : option loc;
  status : Status;
  confidence : option Q
}.
Definition isEmpty (s : t) : bool :=
  match status s with empty => true | _ => false end.
End TargetSlot.

(** The component state.  [store] holds every file object allocated so
    far; [stagedFiles] is the array of references held in React state.
    [cursor] counts the [Math.random()] draws made.  The progress dialog
    and the organisation-mode radio button are presentation only. *)
Record State := mkState {
  store : list StagedFile.t;
  stagedFiles : list loc;
  targetStructure : jsstring;
  targetSlots : list TargetSlot.t;
  cursor : nat;
  hook : HookState;
  contextOperations : list DirectoryContext.Operation
}.

Definition initial : State :=
  mkState [] [] [] [] 0 (mkHook [] false) [].

(** In-place update of the object at a location. *)
Fixpoint writeAt {A} (l : nat) (v : A) (xs : list A) : list A :=
  match xs, l with
  | [], _ => []
  | _ :: r, O => v :: r
  | x :: r, S l' => x :: writeAt l' v r
  end.

(** The slots pushed by the [forEach] of [buildTargetStructure], the
    callback's [index] argument counting from [index]. *)
Fixpoint slotsFrom (index : nat) (lines : list jsstring)
  : list TargetSlot.t :=
  match lines with
  | [] => []
  | line :: rest =>
      let trimmed := trim line in
      (if truthy trimmed && negb (startsWith trimmed (lit "#")) then
         let isDirectory := endsWith trimmed (lit "/") in
         let path := replaceTrailingSlash trimmed in
         if negb isDirectory then
           [ TargetSlot.mk (lit "slot_" ++ toString index) path file None
                           TargetSlot.empty None ]
         else []
       else [])
      ++ slotsFrom (S index) rest
  end.

Definition buildSlots (targetStructure : jsstring) : list TargetSlot.t :=
  let lines := filter (fun line => truthy (trim line))
                      (split LF targetStructure) in
  slotsFrom 0 lines.

Section Tab.

Variable toLowerCase : jsstring -> jsstring.
Variable toISOString : nat -> jsstring.
Variable typeErrorMessage : jsstring.
Variable rand : nat -> Q.

Definition addFilesToStage (now1 now2 : nat) (st : State) : State :=
  let n := toString (length (stagedFiles st) + 1) in
  let f1 :=
    StagedFile.mk (toString now1)
      (lit "document_" ++ n ++ lit ".pdf")
      (lit "/files/document_" ++ n ++ lit ".pdf")
      (Qfloor (rand (cursor st) * 1000000))
      (lit "application/pdf") StagedFile.staged None in
  let f2 :=
    StagedFile.mk (toString (now2 + 1))
      (lit "image_" ++ n ++ lit ".jpg")
      (lit "/files/image_" ++ n ++ lit ".jpg")
      (Qfloor (rand (cursor st + 1) * 2000000))
      (lit "image/jpeg") StagedFile.staged None in
  mkState (store st ++ [f1; f2])
          (stagedFiles st ++ [length (store st); length (store st) + 1])
          (targetStructure st) (targetSlots st) (cursor st + 2)
          (hook st) (contextOperations st).

Definition setTargetStructure (text : jsstring) (st : State) : State :=
  mkState (store st) (stagedFiles st) text (targetSlots st) (cursor st)
          (hook st) (contextOperations st).

Definition buildTargetStructure (now : nat) (st : State) : State :=
  if negb (truthy (trim (targetStructure st))) then st
  else
    let slots := buildSlots (targetStructure st) in
    mkState (store st) (stagedFiles st) (targetStructure st) slots
            (cursor st) (hook st)
            (DirectoryContext.addOperation toISOString now
               (lit "build_target_structure")
               (lit "Created " ++ toString (length slots)
                ++ lit " target slots")
               success (contextOperations st)).

(** *** autoAssignFiles *)

(** The predicate of [updatedFiles.find] on the object a reference
    denotes. *)
Definition isMatch (objs : list StagedFile.t) (targetExt : jsstring)
           (l : loc) : bool :=
  match nth_error objs l with
  | Some f => StagedFile.isStaged f
              && includes (toLowerCase (StagedFile.name f))
                          (orElse targetExt [])
  | None => false
  end.

Definition targetExtOf (slot : TargetSlot.t) : jsstring :=
  toLowerCase (pop (split DOT (TargetSlot.path slot))).

(** The loop state: the objects, the number of random draws made and
    [assignedCount]. *)
Definition Pass := (list StagedFile.t * nat * nat)%type.

(** One iteration of the [for] loop on [slot = updatedSlots[i]]. *)
Definition assignSlot (updatedFiles : list loc) (slot : TargetSlot.t)
           (p : Pass) : TargetSlot.t * Pass :=
  let '(objs, k, assignedCount) := p in
  if TargetSlot.isEmpty slot then
    match find (isMatch objs (targetExtOf slot)) updatedFiles with
    | Some l =>
        match nth_error objs l with
        | Some matchingFile =>
            (TargetSlot.mk (TargetSlot.id slot) (TargetSlot.path slot)
                           (TargetSlot.type slot) (Some l)
                           TargetSlot.autoMatched
                           (Some (75 + rand k * 20)%Q),
             (writeAt l
                (StagedFile.mk (StagedFile.id matchingFile)
                               (StagedFile.name matchingFile)
                               (StagedFile.path matchingFile)
                               (StagedFile.size matchingFile)
                               (StagedFile.type matchingFile)
                               StagedFile.assigned
                               (Some (TargetSlot.path slot)))
                objs,
              k + 1, assignedCount + 1))
        | None => (slot, p)
        end
    | None => (slot, p)
    end
  else (slot, p).

Fixpoint assignLoop (updatedFiles : list loc) (slots : list TargetSlot.t)
         (p : Pass) : list TargetSlot.t * Pass :=
  match slots with
  | [] => ([], p)
  | slot :: rest =>
      let (slot', p') := assignSlot updatedFiles slot p in
      let (rest', p'') := assignLoop updatedFiles rest p' in
      (slot' :: rest', p'')
  end.

Definition autoAssignFiles (now : nat) (st : State) : State :=
  if (length (stagedFiles st) =? 0) || (length (targetSlots st) =? 0)
  then st
  else
    let '(updatedSlots, (objs, k, assignedCount)) :=
      assignLoop (stagedFiles st) (targetSlots st)
                 (store st, cursor st, 0) in
    mkState objs (stagedFiles st) (targetStructure st) updatedSlots k
            (hook st)
            (DirectoryContext.addOperation toISOString now
               (lit "auto_assign")
               (lit "Auto-assigned " ++ toString assignedCount
                ++ lit " files")
               success (contextOperations st)).

(** *** organizeAssignedFiles and createOrganizedPackage *)

(** [targetSlots.filter(slot => slot.assignedFile).map(...)]: the source
    is the referenced object. *)
Definition assignmentsOf (st : State) : list (Assignment loc) :=
  flat_map (fun slot =>
              match TargetSlot.assignedFile slot with
              | Some l => [mkAssignment l (TargetSlot.path slot)]
              | None => []
              end) (targetSlots st).

Definition idAt (objs : list StagedFile.t) (l : loc) : option jsstring :=
  option_map StagedFile.id (nth_error objs l).

(** The progress callbacks of the tab only set component state. *)
Definition uiProgress : option ProgressCallback := Some (fun _ _ => None).

Definition markOrganized (f : StagedFile.t) : StagedFile.t :=
  StagedFile.mk (StagedFile.id f) (StagedFile.name f) (StagedFile.path f)
                (StagedFile.size f) (StagedFile.type f)
                StagedFile.organized (StagedFile.targetPath f).

(** [stagedFiles.map(file => ... ? { ...file, status: 'organized' } : file)]:
    a file matched by id is replaced by a fresh object. *)
Fixpoint organizeMap (objs0 : list StagedFile.t)
         (assignments : list (Assignment loc)) (refs : list loc)
         (objs : list StagedFile.t) : list loc * list StagedFile.t :=
  match refs with
  | [] => ([], objs)
  | l :: rest =>
      let hit :=
        match idAt objs0 l with
        | Some i =>
            existsb (fun a => match idAt objs0 (source a) with
                              | Some j => JS.eqb j i
                              | None => false
                              end) assignments
        | None => false
        end in
      match hit, nth_error objs0 l with
      | true, Some f =>
          let (rest', objs') :=
            organizeMap objs0 assignments rest (objs ++ [markOrganized f]) in
          (length objs :: rest', objs')
      | _, _ =>
          let (rest', objs') := organizeMap objs0 assignments rest objs in
          (l :: rest', objs')
      end
  end.

(** Every iteration of the executor's loop draws once from [Math.random]
    for its delay; with objects as items and [uiProgress] as callback all
    [length assignments] iterations run. *)
Definition organizeAssignedFiles (now : nat) (st : State) : State :=
  let assignments := assignmentsOf st in
  if length assignments =? 0 then st
  else
    let '(result, _, hook') :=
      organizeFiles toISOString typeErrorMessage now assignments
        (lit "/organized") copy uiProgress (hook st) in
    let k := cursor st + length assignments in
    if resultSuccess result then
      let (refs, objs) :=
        organizeMap (store st) assignments (stagedFiles st) (store st) in
      mkState objs refs (targetStructure st) (targetSlots st) k
              hook' (contextOperations st)
    else
      mkState (store st) (stagedFiles st) (targetStructure st)
              (targetSlots st) k hook' (contextOperations st).

Definition createOrganizedPackage (today now : nat) (st : State) : State :=
  let assignments := assignmentsOf st in
  if length assignments =? 0 then st
  else
    let '(_, _, _, hook') :=
      createPackage toISOString typeErrorMessage now assignments
        (lit "organized_package_"
         ++ hd [] (split 84%N (toISOString today)))
        uiProgress (hook st) in
    mkState (store st) (stagedFiles st) (targetStructure st)
            (targetSlots st) (cursor st + length assignments) hook'
            (contextOperations st).

(** *** The tab as a transition system *)

(** One action is one handler run to its end: the awaits of
    [autoAssignFiles], [organizeAssignedFiles] and
    [createOrganizedPackage] are over before the next action starts, as
    when the progress dialog, which covers the tab meanwhile, is not
    dismissed with Cancel.  A click that falls between the awaits of a
    running handler is not an action of this system. *)

Inductive Action :=
| AddFilesToStage (now1 now2 : nat)
| SetTargetStructure (text : jsstring)
| BuildTargetStructure (now : nat)
| AutoAssignFiles (now : nat)
| OrganizeAssignedFiles (now : nat)
| CreateOrganizedPackage (today now : nat).

Definition step (st : State) (a : Action) : State :=
  match a with
  | AddFilesToStage now1 now2 => addFilesToStage now1 now2 st
  | SetTargetStructure text => setTargetStructure text st
  | BuildTargetStructure now => buildTargetStructure now st
  | AutoAssignFiles now => autoAssignFiles now st
  | OrganizeAssignedFiles now => organizeAssignedFiles now st
  | CreateOrganizedPackage today now => createOrganizedPackage today now st
  end.

Definition run (actions : list Action) : State :=
  fold_left step actions initial.

(** The file ids held by the slots, in slot order. *)
Definition assignedIds (st : State) : list jsstring :=
  flat_map (fun slot =>
              match TargetSlot.assignedFile slot with
              | Some l => match idAt (store st) l with
                          | Some i => [i]
                          | None => []
                          end
              | None => []
              end) (targetSlots st).

Definition assignedLocs (slots : list TargetSlot.t) : list loc :=
  flat_map (fun slot =>
              match TargetSlot.assignedFile slot with
              | Some l => [l]
              | None => []
              end) slots.

End Tab.

End SmartOrganize.

Import SmartOrganize.

(* ================================================================== *)
(** ** Vocabulary of the specification *)
(* ================================================================== *)

Module Spec.

(** [join sep] is the inverse of [split sep]. *)
Fixpoint join (sep : codeUnit) (parts : list jsstring) : jsstring :=
  match parts with
  | [] => []
  | [l] => l
  | l :: rest => l ++ sep :: join sep rest
  end.

(** The count of leading whitespace characters of a line. *)
Fixpoint leadingWhiteSpace (line : jsstring) : nat :=
  match line with
  | c :: r => if isWhiteSpace c then S (leadingWhiteSpace r) else 0
  | [] => 0
  end.

Definition endsWithSlash (tok : jsstring) : Prop :=
  exists t, tok = t ++ [SLASH].

(** [res] is [tok] with its trailing separator, if any, stripped. *)
Definition stripped (tok res : jsstring) : Prop :=
  tok = res ++ [SLASH] \/ (res = tok /\ ~ endsWithSlash tok).

(** A line the parser discards: empty after trimming, or a comment. *)
Definition discarded (line : jsstring) : Prop :=
  trim line = [] \/ exists r, trim line = HASH :: r.

(** The node the specification describes for a line that is kept. *)
Record nodeOf (line : jsstring) (n : DirectoryStructureItem) : Prop := {
  node_depth : depth n = leadingWhiteSpace line / 2;
  node_kind : type n = directory <-> endsWithSlash (trim line);
  node_path : stripped (trim line) (path n)
}.

(** The items one line of the definition contributes to the result of
    [parseStructureDefinition]. *)
Definition itemsOfLine (line : jsstring) : list DirectoryStructureItem :=
  if truthy (trim line) && negb (startsWith (trim line) (lit "#"))
  then parseLine [] line
  else [].

(** The slot a line at position [k] gives rise to. *)
Definition slotAt (k : nat) (line : jsstring) : TargetSlot.t :=
  TargetSlot.mk (lit "slot_" ++ toString k) (trim line) file None
                TargetSlot.empty None.

(** The part of a slot that a proposal consists of besides its
    confidence: the slot, the file it holds and the status. *)
Definition proposal (s : TargetSlot.t)
  : jsstring * jsstring * ItemType * option loc * TargetSlot.Status :=
  (TargetSlot.id s, TargetSlot.path s, TargetSlot.type s,
   TargetSlot.assignedFile s, TargetSlot.status s).

(** What an auto-assignment pass may do to a slot when [k0] random draws
    were made before: leave it, or fill an empty slot with a file and a
    confidence of [75 + 20 r] for a later draw [r]. *)
Definition slotOutcome (rand : nat -> Q) (k0 : nat)
           (s s' : TargetSlot.t) : Prop :=
  s' = s
  \/ (TargetSlot.isEmpty s = true
      /\ exists l k,
           k0 <= k
           /\ s' = TargetSlot.mk (TargetSlot.id s) (TargetSlot.path s)
                                 (TargetSlot.type s) (Some l)
                                 TargetSlot.autoMatched
                                 (Some (75 + rand k * 20)%Q)).

(** The confidences of a slot after two runs are the same, or are
    [75 + 20 r] for the draws [r] at one and the same position of the
    two random streams. *)
Definition confidenceFromDraws (rand1 rand2 : nat -> Q)
           (s1 s2 : TargetSlot.t) : Prop :=
  TargetSlot.confidence s1 = TargetSlot.confidence s2
  \/ exists k,
       TargetSlot.confidence s1 = Some (75 + rand1 k * 20)%Q
       /\ TargetSlot.confidence s2 = Some (75 + rand2 k * 20)%Q.

(** A progress callback that returns normally on every call (or no
    callback at all). *)
Definition quiet (onProgress : option ProgressCallback) : Prop :=
  match onProgress with
  | Some cb => forall q m, cb q m = None
  | None => True
  end.

(** The number of calls a batch of [n] items makes to the callback. *)
Definition callsFor (onProgress : option ProgressCallback) (n : nat) : nat :=
  match onProgress with Some _ => n | None => 0 end.

(** Every location of [ls] denotes an object that is not ['staged']. *)
Definition settled (objs : list StagedFile.t) (ls : list loc) : Prop :=
  forall l, In l ls ->
            exists f, nth_error objs l = Some f
                      /\ StagedFile.isStaged f = false.

(** Exclusivity on file objects: no staged-file object is held by two
    slots, and an object held by a slot is no longer ['staged']. *)
Definition Exclusive (st : State) : Prop :=
  NoDup (assignedLocs (targetSlots st))
  /\ settled (store st) (assignedLocs (targetSlots st)).

(** What two runs of a pass, with the draws [rand1] and [rand2], do to one
    slot [s] when [k0] draws were made before: both leave it as it is, or
    both fill it with the same file and record [75 + 20 r] for their own
    draw [r] at the same position [k] of the random stream. *)
Definition pairedOutcome (rand1 rand2 : nat -> Q) (k0 : nat)
           (s s1 s2 : TargetSlot.t) : Prop :=
  (s1 = s /\ s2 = s)
  \/ (TargetSlot.isEmpty s = true
      /\ exists l k,
           k0 <= k
           /\ s1 = TargetSlot.mk (TargetSlot.id s) (TargetSlot.path s)
                                 (TargetSlot.type s) (Some l)
                                 TargetSlot.autoMatched
                                 (Some (75 + rand1 k * 20)%Q)
           /\ s2 = TargetSlot.mk (TargetSlot.id s) (TargetSlot.path s)
                                 (TargetSlot.type s) (Some l)
                                 TargetSlot.autoMatched
                                 (Some (75 + rand2 k * 20)%Q)).

(** Two slots carry the same confidence value. *)
Definition sameConfidence (s1 s2 : TargetSlot.t) : Prop :=
  match TargetSlot.confidence s1, TargetSlot.confidence s2 with
  | Some a, Some b => (a == b)%Q
  | None, None => True
  | _, _ => False
  end.

End Spec.

(** Concrete inputs on which the code is run below. *)
Module Samples.

Definition isoStub : nat -> jsstring :=
  fun _ => lit "1970-01-01T00:00:00.000Z".

Definition drawZero : nat -> Q := fun _ => 0%Q.
Definition drawHalf : nat -> Q := fun _ => (1 # 2)%Q.

(** One empty slot [invoice.pdf] and one staged file
    [invoice_final.pdf]. *)
Definition invoiceState : State :=
  mkState
    [ StagedFile.mk (lit "1") (lit "invoice_final.pdf")
                    (lit "/files/invoice_final.pdf") 1024
                    (lit "application/pdf") StagedFile.staged None ]
    [0] (lit "invoice.pdf")
    [ TargetSlot.mk (lit "slot_0") (lit "invoice.pdf") file None
                    TargetSlot.empty None ]
    0 (mkHook [] false) [].

(** The tab after one click on "Add Files" and a build of the one-line
    structure [a.pdf]. *)
Definition stagedPdfState : State :=
  run asciiLower isoStub [] drawHalf
      [ AddFilesToStage 1000 1000; SetTargetStructure (lit "a.pdf");
        BuildTargetStructure 2000 ].

(** The same tab, with a second slot that was filled earlier. *)
Definition mixedState : State :=
  mkState
    [ StagedFile.mk (lit "1") (lit "invoice_final.pdf")
                    (lit "/files/invoice_final.pdf") 1024
                    (lit "application/pdf") StagedFile.staged None;
      StagedFile.mk (lit "2") (lit "notes.pdf") (lit "/files/notes.pdf")
                    2048 (lit "application/pdf") StagedFile.assigned
                    (Some (lit "notes.pdf")) ]
    [0; 1] (lit "invoice.pdf" ++ [LF] ++ lit "notes.pdf")
    [ TargetSlot.mk (lit "slot_0") (lit "invoice.pdf") file None
                    TargetSlot.empty None;
      TargetSlot.mk (lit "slot_1") (lit "notes.pdf") file (Some 1)
                    TargetSlot.autoMatched (Some (80 # 1)%Q) ]
    1 (mkHook [] false) [].

(** Two clicks on "Add Files" that read the same clock value, then two
    PDF slots are built and auto-assigned. *)
Definition sameTickClicks : list Action :=
  [ AddFilesToStage 1000 1000; AddFilesToStage 1000 1000;
    SetTargetStructure (lit "a.pdf" ++ [LF] ++ lit "b.pdf");
    BuildTargetStructure 2000; AutoAssignFiles 3000 ].

(** The tab after two clicks on "Add Files" and a build of three slots,
    before any auto-assignment. *)
Definition builtState : State :=
  run asciiLower isoStub [] drawHalf
      [ AddFilesToStage 1000 1000; AddFilesToStage 1001 1001;
        SetTargetStructure (lit "a.jpg" ++ [LF] ++ lit "b.pdf" ++ [LF]
                            ++ lit "c.pdf");
        BuildTargetStructure 2000 ].

(** Two clicks on "Add Files" one millisecond apart. *)
Definition nextTickClicks : list Action :=
  [ AddFilesToStage 1000 1000; AddFilesToStage 1001 1001;
    SetTargetStructure (lit "a.jpg" ++ [LF] ++ lit "b.pdf" ++ [LF]
                        ++ lit "c.pdf");
    BuildTargetStructure 2000; AutoAssignFiles 3000 ].

(** A tab with one empty slot whose path ends with a dot and two files,
    the first of which is already assigned. *)
Definition dotState : State :=
  mkState
    [ StagedFile.mk (lit "1") (lit "a.txt") (lit "/files/a.txt") 10
                    (lit "text/plain") StagedFile.assigned
                    (Some (lit "x.txt"));
      StagedFile.mk (lit "2") (lit "photo.jpg") (lit "/files/photo.jpg") 20
                    (lit "image/jpeg") StagedFile.staged None ]
    [0; 1] (lit "report.")
    [ TargetSlot.mk (lit "slot_0") (lit "report.") file None
                    TargetSlot.empty None ]
    0 (mkHook [] false) [].

(** A plan of three entries and a batch whose second element is [null]. *)
Definition threeAssignments : list (Assignment jsstring) :=
  [ mkAssignment (lit "/missing/a.pdf") (lit "docs/a.pdf");
    mkAssignment (lit "/files/b.pdf") (lit "docs/b.pdf");
    mkAssignment (lit "/files/c.pdf") (lit "docs/c.pdf") ].

Definition batchWithNull : list (option ItemView) :=
  [ Some (mkView (Some (lit "a.pdf")) None); None;
    Some (mkView (Some (lit "c.pdf")) None) ].

Definition silent : option ProgressCallback := Some (fun _ _ => None).

Definition idle : HookState := mkHook [] false.

Definition reportPlan : list (Assignment jsstring) :=
  [ mkAssignment (lit "/files/report_v2.pdf") (lit "docs/report.pdf") ].

End Samples.

Import Spec.
Import Samples.

(* ================================================================== *)
(** ** HistoryDialog.tsx, EnhancedStructureTab.tsx and the derived values of
       SmartOrganizeTab.tsx *)
(* ================================================================== *)

Module Progress.

(** The progress value the executor reports after [done] of [total] items:
    [(done / total) * 100]. *)
Definition percent (done total : nat) : Q :=
  ((inject_Z (Z.of_nat done) / inject_Z (Z.of_nat total)) * 100)%Q.

(** The status and details the executor writes into its log entry when the
    loop is over. *)
Definition finalStatus (r : OpResult) : OpStatus :=
  if resultSuccess r then success else error.

End Progress.

Module HistoryDialog.

(** [operations.some(op => op.status === 'success')]: whether the dialog
    shows the "Undo Last" button. *)
Definition canUndo (operations : list Operation.t) : bool :=
  existsb isSuccess operations.

End HistoryDialog.

Module EnhancedStructure.

(** The part of the component state the handlers below read and write. *)
Record State := mkState {
  currentStructure : jsstring;
  baseDirectory : jsstring;
  createdItems : list jsstring;
  hook : HookState
}.

(** U+1F4C1 and U+1F4C4 as surrogate pairs. *)
Definition FOLDER : jsstring := [55357; 56513]%N.
Definition PAGE : jsstring := [55357; 56516]%N.

Definition createdLine (item : DirectoryStructureItem) : jsstring :=
  (match type item with directory => FOLDER | file => PAGE end)
  ++ lit " " ++ path item.

Section Handlers.

Variable toISOString : nat -> jsstring.
Variable typeErrorMessage : jsstring.

Definition handleCreateStructure (now : nat) (st : State) : State :=
  if negb (truthy (trim (currentStructure st))) then st
  else if negb (truthy (trim (baseDirectory st))) then st
  else
    let '(result, _, hook') :=
      createStructure toISOString typeErrorMessage now
        (currentStructure st) (baseDirectory st)
        (Some (fun _ _ => None)) (hook st) in
    if resultSuccess result then
      let items := parseStructureDefinition (currentStructure st) in
      mkState (currentStructure st) (baseDirectory st)
              (map createdLine items) hook'
    else
      mkState (currentStructure st) (baseDirectory st) (createdItems st)
              hook'.

End Handlers.

(** [Array.from({ length: lines }, (_, i) => i + 1).join('\n')]. *)
Definition getLineNumbers (currentStructure : jsstring) : jsstring :=
  let lines := length (split LF currentStructure) in
  join LF (map (fun i => toString (i + 1)) (seq 0 lines)).

End EnhancedStructure.

Module SmartOrganizeView.

(** [item.type === 'file']. *)
Definition isFileItem (n : DirectoryStructureItem) : bool :=
  match type n with file => true | directory => false end.

Definition hasFile (slot : TargetSlot.t) : bool :=
  match TargetSlot.assignedFile slot with Some _ => true | None => false end.

(** [targetSlots.filter(slot => slot.assignedFile).length]. *)
Definition assignedCount (targetSlots : list TargetSlot.t) : nat :=
  length (filter hasFile targetSlots).

Definition completionPercentage (targetSlots : list TargetSlot.t) : Q :=
  if 0 <? length targetSlots
  then ((inject_Z (Z.of_nat (assignedCount targetSlots))
         / inject_Z (Z.of_nat (length targetSlots))) * 100)%Q
  else 0%Q.

(** The "Organize Files" and "Create Package" buttons are disabled when
    [assignedCount === 0]. *)
Definition actionsDisabled (targetSlots : list TargetSlot.t) : bool :=
  assignedCount targetSlots =? 0.

(** The status of the object a staged-file reference denotes, and the
    number of references of the staging list that are still ['staged']. *)
Definition stagedAt (objs : list StagedFile.t) (l : loc) : bool :=
  match nth_error objs l with
  | Some f => StagedFile.isStaged f
  | None => false
  end.

Definition emptyCount (slots : list TargetSlot.t) : nat :=
  length (filter TargetSlot.isEmpty slots).

(** The object a consumed file becomes: [status] and [targetPath] are
    written, the other fields stay. *)
Definition assignedCopy (f : StagedFile.t) (targetPath : jsstring)
  : StagedFile.t :=
  StagedFile.mk (StagedFile.id f) (StagedFile.name f) (StagedFile.path f)
                (StagedFile.size f) (StagedFile.type f) StagedFile.assigned
                (Some targetPath).

(** Slot [s] was filled by a pass that started on the objects [objs], with
    the staging list [refs], and ended on the objects [objs']. *)
Definition filledBy (toLowerCase : jsstring -> jsstring)
           (objs objs' : list StagedFile.t) (refs : list loc)
           (s s' : TargetSlot.t) : Prop :=
  exists l f,
    TargetSlot.assignedFile s' = Some l
    /\ TargetSlot.status s' = TargetSlot.autoMatched
    /\ TargetSlot.path s' = TargetSlot.path s
    /\ TargetSlot.id s' = TargetSlot.id s
    /\ In l refs
    /\ nth_error objs l = Some f
    /\ StagedFile.isStaged f = true
    /\ includes (toLowerCase (StagedFile.name f))
                (targetExtOf toLowerCase s) = true
    /\ nth_error objs' l = Some (assignedCopy f (TargetSlot.path s)).

(** The test of [organizeAssignedFiles] on a staged file: some assignment
    has a source with the same id. *)
Definition idAssigned (objs0 : list StagedFile.t)
           (assignments : list (Assignment loc)) (l : loc) : bool :=
  match idAt objs0 l with
  | Some i =>
      existsb (fun a => match idAt objs0 (source a) with
                        | Some j => JS.eqb j i
                        | None => false
                        end) assignments
  | None => false
  end.

(** The id of the file a reference denotes is the id of a file held by a
    slot. *)
Definition sharesAssignedId (st : State) (l : loc) : Prop :=
  exists i, idAt (store st) l = Some i /\ In i (assignedIds st).

(** The name of the file a reference denotes. *)
Definition nameAt (objs : list StagedFile.t) (l : loc) : option jsstring :=
  option_map StagedFile.name (nth_error objs l).

(** The names given by the [j]-th click on "Add Files" (counting from 0),
    and by the first [m] clicks. *)
Definition clickNames (j : nat) : list jsstring :=
  [ lit "document_" ++ toString (2 * j + 1) ++ lit ".pdf";
    lit "image_" ++ toString (2 * j + 1) ++ lit ".jpg" ].

Definition stageNames (m : nat) : list jsstring :=
  flat_map clickNames (seq 0 m).

Definition isAdd (a : Action) : bool :=
  match a with AddFilesToStage _ _ => true | _ => false end.

(** The names of the staging list, in order, are those of [m] clicks. *)
Definition stagedNames (st : State) (m : nat) : Prop :=
  map (nameAt (store st)) (stagedFiles st) = map Some (stageNames m).

End SmartOrganizeView.

Import SmartOrganizeView.
Import Progress.

(* ================================================================== *)
(** ** Facts about the string primitives *)
(* ================================================================== *)

Section StringFacts.

Lemma truthy_true (s : jsstring) : truthy s = true <-> s <> [].
Proof. destruct s; simpl; split; congruence. Qed.

Lemma truthy_false (s : jsstring) : truthy s = false <-> s = [].
Proof. destruct s; simpl; split; congruence. Qed.

Lemma startsWith_single (s : jsstring) (a : codeUnit) :
  startsWith s [a]
  = match s with [] => false | b :: _ => (a =? b)%N end.
Proof.
  destruct s; [reflexivity|]. unfold startsWith. apply andb_true_r.
Qed.

Lemma startsWith_hash (s : jsstring) :
  startsWith s (lit "#") = true <-> exists r, s = HASH :: r.
Proof.
  change (lit "#") with [HASH]. rewrite startsWith_single.
  destruct s as [|c r].
  - split; [discriminate | intros [r' H]; discriminate].
  - rewrite N.eqb_eq.
    split; [intros <-; eauto | intros [r' H]; congruence].
Qed.

Lemma rev_cons_inv (A : Type) (s r : list A) (c : A) :
  rev s = c :: r -> s = rev r ++ [c].
Proof.
  intros H. rewrite <- (rev_involutive s), H. reflexivity.
Qed.

Lemma endsWith_slash (s : jsstring) :
  endsWith s (lit "/") = true <-> endsWithSlash s.
Proof.
  unfold endsWith, endsWithSlash.
  change (rev (lit "/")) with [SLASH]. rewrite startsWith_single.
  destruct (rev s) as [|c r] eqn:E.
  - split; [discriminate|]. intros [t ->].
    rewrite rev_app_distr in E. discriminate.
  - rewrite N.eqb_eq. split.
    + intros <-. exists (rev r). now apply rev_cons_inv.
    + intros [t ->]. rewrite rev_app_distr in E. simpl in E.
      congruence.
Qed.

Lemma replaceTrailingSlash_stripped (s : jsstring) :
  stripped s (replaceTrailingSlash s).
Proof.
  unfold stripped, replaceTrailingSlash, endsWithSlash.
  destruct (rev s) as [|c r] eqn:E.
  - right. split; [reflexivity|]. intros [t ->].
    rewrite rev_app_distr in E. discriminate.
  - destruct (N.eqb_spec c SLASH) as [->|Hc].
    + left. now apply rev_cons_inv.
    + right. split; [reflexivity|]. intros [t ->].
      rewrite rev_app_distr in E. simpl in E. congruence.
Qed.

Lemma trimStart_length (s : jsstring) :
  length (trimStart s) + leadingWhiteSpace s = length s.
Proof.
  induction s as [|c r IH]; simpl; [reflexivity|].
  destruct (isWhiteSpace c); simpl; lia.
Qed.

Lemma leadingSpaces_count (line : jsstring) :
  length line - length (trimStart line) = leadingWhiteSpace line.
Proof. pose proof (trimStart_length line). lia. Qed.

(** [split] cuts exactly at the separators: joining the pieces gives the
    text back and no piece contains a separator. *)
Lemma split_nonempty (sep : codeUnit) (s : jsstring) : split sep s <> [].
Proof.
  induction s as [|c r IH]; simpl; [discriminate|].
  destruct (c =? sep)%N; [discriminate|].
  destruct (split sep r); [contradiction | discriminate].
Qed.

Lemma join_split (sep : codeUnit) (s : jsstring) :
  join sep (split sep s) = s.
Proof.
  induction s as [|c r IH]; simpl; [reflexivity|].
  destruct (N.eqb_spec c sep) as [->|Hc].
  - pose proof (split_nonempty sep r) as Hne.
    destruct (split sep r) as [|h t] eqn:E; [contradiction|].
    simpl in *. now rewrite IH.
  - pose proof (split_nonempty sep r) as Hne.
    destruct (split sep r) as [|h t] eqn:E; [contradiction|].
    simpl in *. destruct t; simpl in *; now rewrite <- IH.
Qed.

Lemma split_no_sep (sep : codeUnit) (s : jsstring) :
  Forall (fun piece => ~ In sep piece) (split sep s).
Proof.
  induction s as [|c r IH]; simpl.
  - constructor; [intros [] | constructor].
  - destruct (N.eqb_spec c sep) as [->|Hc].
    + constructor; [intros [] | exact IH].
    + destruct (split sep r) as [|h t]; inversion IH; subst;
        constructor; simpl; try tauto; try constructor.
Qed.

End StringFacts.

(* ================================================================== *)
(** ** The structure parser *)
(* ================================================================== *)

Section ParserFacts.

Lemma parseLine_app acc line :
  parseLine acc line = acc ++ parseLine [] line.
Proof.
  unfold parseLine. destruct (truthy _); [reflexivity|].
  now rewrite app_nil_r.
Qed.

Lemma fold_parseLine lines : forall acc,
  fold_left parseLine lines acc = acc ++ flat_map (parseLine []) lines.
Proof.
  induction lines as [|l ls IH]; intros acc; simpl.
  - now rewrite app_nil_r.
  - rewrite IH, (parseLine_app acc l), <- app_assoc. reflexivity.
Qed.

Lemma flat_map_filter (A B : Type) (f : A -> list B) (p : A -> bool) l :
  flat_map f (filter p l) = flat_map (fun x => if p x then f x else []) l.
Proof.
  induction l as [|x xs IH]; simpl; [reflexivity|].
  destruct (p x); simpl; now rewrite IH.
Qed.

Lemma parse_by_lines definition :
  parseStructureDefinition definition
  = flat_map itemsOfLine (split LF definition).
Proof.
  unfold parseStructureDefinition.
  rewrite fold_parseLine, flat_map_filter. reflexivity.
Qed.

Lemma kept_iff line :
  truthy (trim line) && negb (startsWith (trim line) (lit "#")) = true
  <-> ~ discarded line.
Proof.
  unfold discarded.
  rewrite andb_true_iff, negb_true_iff, truthy_true.
  rewrite <- not_true_iff_false, startsWith_hash. tauto.
Qed.

Lemma not_kept line :
  truthy (trim line) && negb (startsWith (trim line) (lit "#")) = false
  -> discarded line.
Proof.
  unfold discarded. rewrite andb_false_iff, negb_false_iff.
  rewrite truthy_false, startsWith_hash. tauto.
Qed.

Lemma itemsOfLine_discarded line :
  discarded line -> itemsOfLine line = [].
Proof.
  intros H. unfold itemsOfLine.
  destruct (truthy _ && _) eqn:E; [|reflexivity].
  apply kept_iff in E. contradiction.
Qed.

Lemma itemsOfLine_cases line :
  itemsOfLine line = []
  \/ exists n, itemsOfLine line = [n]
               /\ ~ discarded line /\ nodeOf line n
               /\ name n = path n /\ path n <> []
               /\ path n = replaceTrailingSlash (trim line).
Proof.
  unfold itemsOfLine.
  destruct (truthy _ && _) eqn:E; [|now left].
  apply kept_iff in E. unfold parseLine.
  destruct (truthy (replaceTrailingSlash _)) eqn:T; [|now left].
  right. eexists. split; [reflexivity|]. simpl.
  repeat split; simpl; try assumption.
  - now rewrite leadingSpaces_count.
  - destruct (endsWith _ _) eqn:W; [intros _|discriminate].
    now apply endsWith_slash.
  - intros H. apply endsWith_slash in H. now rewrite H.
  - apply replaceTrailingSlash_stripped.
  - now apply truthy_true.
Qed.

Lemma itemsOfLine_kept line :
  ~ discarded line -> trim line <> [SLASH] ->
  exists n, itemsOfLine line = [n].
Proof.
  intros Hk Hs. unfold itemsOfLine.
  destruct (truthy _ && _) eqn:E; [|apply kept_iff in Hk; congruence].
  unfold parseLine.
  destruct (truthy (replaceTrailingSlash _)) eqn:T;
    [eexists; reflexivity|].
  apply truthy_false in T.
  pose proof (replaceTrailingSlash_stripped (trim line)) as [H|[H _]];
    rewrite T in H.
  - contradiction.
  - exfalso. apply Hk. left. now symmetry.
Qed.

End ParserFacts.

(** C7. For every input text the parser splits on line breaks (joining the
    pieces with the line break gives the text back, and no piece contains
    one), contributes nothing for a line that is empty after trimming or
    whose trimmed form starts with [#], and every node it produces comes from
    one kept line and has depth = floor(leading whitespace count / 2), kind
    [directory] exactly when the trimmed token ends with [/], and as path the
    token with that trailing separator stripped.  A kept line yields exactly
    one node, except the bare token [/], whose clean name is empty. *)
Theorem parser_line_rules (definition : jsstring) :
  join LF (split LF definition) = definition
  /\ Forall (fun line => ~ In LF line) (split LF definition)
  /\ parseStructureDefinition definition
     = flat_map itemsOfLine (split LF definition)
  /\ forall line,
       (discarded line -> itemsOfLine line = [])
       /\ (forall n, In n (itemsOfLine line) ->
                     itemsOfLine line = [n] /\ ~ discarded line
                     /\ nodeOf line n)
       /\ (~ discarded line -> trim line <> [SLASH] ->
           exists n, itemsOfLine line = [n]).
Proof.
  split; [apply join_split|].
  split; [apply split_no_sep|].
  split; [apply parse_by_lines|].
  intros line. split; [apply itemsOfLine_discarded|].
  split; [|apply itemsOfLine_kept].
  intros n Hin.
  destruct (itemsOfLine_cases line) as [E|[m (E & Hk & Hn & _)]];
    rewrite E in Hin; simpl in Hin; [contradiction|].
  destruct Hin as [<-|[]]. auto.
Qed.

(** C10. Every node the parser produces has its [name] equal to its [path],
    and both are the trimmed token of one line of the text with a trailing
    [/] stripped. *)
Theorem parsed_name_is_path (definition : jsstring) :
  Forall (fun n =>
            name n = path n
            /\ exists line, In line (split LF definition)
                            /\ stripped (trim line) (path n)
                            /\ stripped (trim line) (name n))
         (parseStructureDefinition definition).
Proof.
  rewrite parse_by_lines. apply Forall_forall. intros n Hin.
  apply in_flat_map in Hin. destruct Hin as (line & Hline & Hn).
  destruct (itemsOfLine_cases line) as [E|[m (E & _ & Hm & Hnm & _)]];
    rewrite E in Hn; simpl in Hn; [contradiction|].
  destruct Hn as [<-|[]]. split; [assumption|].
  exists line. rewrite Hnm. destruct Hm. auto.
Qed.

(** C6. The text "docs/\n  report.pdf" parses to exactly the directory node
    [docs] at depth 0 followed by the file node [report.pdf] at depth 1, and
    building the target structure for that text creates exactly one slot,
    for [report.pdf]. *)
Theorem scenario_docs_report :
  let definition := lit "docs/" ++ [LF] ++ lit "  report.pdf" in
  parseStructureDefinition definition
  = [ mkItem (lit "docs") directory 0 (lit "docs");
      mkItem (lit "report.pdf") file 1 (lit "report.pdf") ]
  /\ buildSlots definition
     = [ TargetSlot.mk (lit "slot_1") (lit "report.pdf") file None
                       TargetSlot.empty None ]
  /\ forall toISOString now st,
       targetSlots (buildTargetStructure toISOString now
                      (setTargetStructure definition st))
       = [ TargetSlot.mk (lit "slot_1") (lit "report.pdf") file None
                         TargetSlot.empty None ].
Proof.
  split; [vm_compute; reflexivity|].
  split; [vm_compute; reflexivity|].
  intros. reflexivity.
Qed.

(* ================================================================== *)
(** ** The skeleton builder *)
(* ================================================================== *)

Section BuilderFacts.

Lemma lit_inj (a b : string) : lit a = lit b -> a = b.
Proof.
  unfold lit. intros H.
  rewrite <- (string_of_list_ascii_of_string a),
          <- (string_of_list_ascii_of_string b).
  f_equal.
  revert H. generalize (list_ascii_of_string b).
  induction (list_ascii_of_string a) as [|x xs IH]; intros [|y ys] H;
    simpl in H; try discriminate; [reflexivity|].
  injection H as Hxy Hrest. f_equal; [|now apply IH].
  rewrite <- (ascii_N_embedding x), <- (ascii_N_embedding y).
  now rewrite Hxy.
Qed.

Lemma toString_inj (m n : nat) : toString m = toString n -> m = n.
Proof.
  unfold toString. intros H. apply lit_inj in H.
  assert (E : Some (Nat.to_uint m) = Some (Nat.to_uint n))
    by (rewrite <- !NilEmpty.usu; now rewrite H).
  injection E as E.
  rewrite <- (DecimalNat.Unsigned.of_to m), <- (DecimalNat.Unsigned.of_to n).
  now rewrite E.
Qed.

Lemma slot_id_inj (m n : nat) :
  lit "slot_" ++ toString m = lit "slot_" ++ toString n -> m = n.
Proof. intros H. apply app_inv_head in H. now apply toString_inj. Qed.

Lemma slot_of_line (index : nat) (line : jsstring) (rest : list jsstring) :
  (~ discarded line /\ ~ endsWithSlash (trim line)
   /\ slotsFrom index (line :: rest)
      = slotAt index line :: slotsFrom (S index) rest)
  \/ ((discarded line \/ endsWithSlash (trim line))
      /\ slotsFrom index (line :: rest) = slotsFrom (S index) rest).
Proof.
  cbn [slotsFrom].
  destruct (truthy _ && _) eqn:K.
  - apply kept_iff in K.
    destruct (endsWith _ _) eqn:W.
    + right. apply endsWith_slash in W. auto.
    + left. assert (Hn : ~ endsWithSlash (trim line)).
      { intros H. apply endsWith_slash in H. congruence. }
      split; [assumption|]. split; [assumption|].
      simpl. unfold slotAt. do 2 f_equal.
      destruct (replaceTrailingSlash_stripped (trim line)) as [H|[H _]];
        [|assumption].
      exfalso. apply Hn. eexists. exact H.
  - right. split; [|reflexivity]. left. now apply not_kept.
Qed.

Lemma in_slotsFrom (lines : list jsstring) : forall index s,
  In s (slotsFrom index lines) <->
  exists k line, nth_error lines k = Some line
                 /\ ~ discarded line /\ ~ endsWithSlash (trim line)
                 /\ s = slotAt (index + k) line.
Proof.
  induction lines as [|line rest IH]; intros index s.
  - simpl. split; [contradiction|].
    intros (k & line & H & _). destruct k; discriminate.
  - destruct (slot_of_line index line rest) as [(Hd & Hs & E)|(Hd & E)];
      rewrite E.
    + simpl. rewrite IH. split.
      * intros [<-|(k & l & Hk & H1 & H2 & ->)].
        -- exists 0, line. rewrite Nat.add_0_r. auto.
        -- exists (S k), l. rewrite Nat.add_succ_r. auto.
      * intros ([|k] & l & Hk & H1 & H2 & ->); simpl in Hk.
        -- injection Hk as <-. left. now rewrite Nat.add_0_r.
        -- right. exists k, l. rewrite Nat.add_succ_r. auto.
    + rewrite IH. split.
      * intros (k & l & Hk & H1 & H2 & ->).
        exists (S k), l. rewrite Nat.add_succ_r. auto.
      * intros ([|k] & l & Hk & H1 & H2 & ->); simpl in Hk.
        -- injection Hk as <-. tauto.
        -- exists k, l. rewrite Nat.add_succ_r. auto.
Qed.

Lemma slotsFrom_ids_distinct (lines : list jsstring) : forall index,
  NoDup (map TargetSlot.id (slotsFrom index lines)).
Proof.
  induction lines as [|line rest IH]; intros index; [constructor|].
  destruct (slot_of_line index line rest) as [(_ & _ & E)|(_ & E)];
    rewrite E; [|apply IH].
  simpl. constructor; [|apply IH].
  intros Hin. apply in_map_iff in Hin. destruct Hin as (s & Hid & Hs).
  apply in_slotsFrom in Hs. destruct Hs as (k & l & _ & _ & _ & ->).
  simpl in Hid. apply slot_id_inj in Hid. lia.
Qed.

End BuilderFacts.

(** C3, as the code has it.  The id of a slot is [slot_k], where [k] is the
    zero-based position of the slot's line among the non-blank lines of the
    definition (comment and directory lines are counted); the slots are
    exactly those of the lines that are neither comments nor directories,
    with the trimmed line as path, and the ids of one build are pairwise
    distinct.  Rebuilding from the same text therefore gives the same ids. *)
Theorem slot_id_is_line_position (definition : jsstring) :
  let lines := filter (fun line => truthy (trim line))
                      (split LF definition) in
  (forall s, In s (buildSlots definition) <->
             exists k line,
               nth_error lines k = Some line
               /\ ~ discarded line /\ ~ endsWithSlash (trim line)
               /\ s = TargetSlot.mk (lit "slot_" ++ toString k) (trim line)
                                    file None TargetSlot.empty None)
  /\ NoDup (map TargetSlot.id (buildSlots definition)).
Proof.
  split.
  - intros s. unfold buildSlots. rewrite in_slotsFrom. reflexivity.
  - apply slotsFrom_ids_distinct.
Qed.

(** C3 fails as stated: the ids are not a function of the path.  The text
    "a.txt\na.txt" gives two slots of the same path with different ids, and
    the texts "a.txt" and "# note\na.txt" have the same file paths but give
    the slot for [a.txt] the ids [slot_0] and [slot_1]. *)
Lemma slot_id_not_a_hash_of_path :
  ~ (exists hash : jsstring -> jsstring,
       forall definition s,
         In s (buildSlots definition) ->
         TargetSlot.id s = hash (TargetSlot.path s))
  /\ map TargetSlot.path (buildSlots (lit "a.txt"))
     = map TargetSlot.path (buildSlots (lit "# note" ++ [LF] ++ lit "a.txt"))
  /\ map TargetSlot.id (buildSlots (lit "a.txt"))
     <> map TargetSlot.id (buildSlots (lit "# note" ++ [LF] ++ lit "a.txt")).
Proof.
  split; [|split].
  - intros [hash H].
    pose (d := lit "a.txt" ++ [LF] ++ lit "a.txt").
    assert (H0 : lit "slot_0" = hash (lit "a.txt")).
    { apply (H d (TargetSlot.mk (lit "slot_0") (lit "a.txt") file None
                                TargetSlot.empty None)).
      vm_compute. auto. }
    assert (H1 : lit "slot_1" = hash (lit "a.txt")).
    { apply (H d (TargetSlot.mk (lit "slot_1") (lit "a.txt") file None
                                TargetSlot.empty None)).
      vm_compute. auto. }
    rewrite <- H1 in H0. vm_compute in H0. discriminate.
  - vm_compute. reflexivity.
  - vm_compute. discriminate.
Qed.

(* ================================================================== *)
(** ** The auto-assignment pass *)
(* ================================================================== *)

Section AssignFacts.

Variable toLowerCase : jsstring -> jsstring.

Lemma assignSlot_nonempty rand refs slot p :
  TargetSlot.isEmpty slot = false ->
  assignSlot toLowerCase rand refs slot p = (slot, p).
Proof.
  intros H. unfold assignSlot. destruct p as [[objs k] c].
  now rewrite H.
Qed.

(** What one iteration does to its slot, given the number of draws made
    before it. *)
Lemma assignSlot_outcome rand refs slot objs k c :
  slotOutcome rand k slot
    (fst (assignSlot toLowerCase rand refs slot (objs, k, c)))
  /\ k <= snd (fst (snd (assignSlot toLowerCase rand refs slot (objs, k, c)))).
Proof.
  unfold assignSlot, slotOutcome.
  destruct (TargetSlot.isEmpty slot) eqn:E; simpl; [|auto].
  destruct (find _ refs) as [l|]; simpl; [|auto].
  destruct (nth_error objs l) as [f|]; simpl; [|auto].
  split; [|lia]. right. split; [reflexivity|]. exists l, k. auto.
Qed.

Lemma slotOutcome_mono rand k k' s s' :
  k <= k' -> slotOutcome rand k' s s' -> slotOutcome rand k s s'.
Proof.
  intros Hk [H|(He & l & j & Hj & H)]; [now left|].
  right. split; [assumption|]. exists l, j. split; [lia|assumption].
Qed.

Lemma assignLoop_outcomes rand refs slots : forall objs k c,
  Forall2 (slotOutcome rand k) slots
          (fst (assignLoop toLowerCase rand refs slots (objs, k, c))).
Proof.
  induction slots as [|slot rest IH]; intros objs k c;
    cbn [assignLoop]; [constructor|].
  pose proof (assignSlot_outcome rand refs slot objs k c) as [Ho Hk].
  destruct (assignSlot _ _ _ _ _) as [slot' [[objs' k'] c']].
  specialize (IH objs' k' c').
  destruct (assignLoop _ _ _ _ _) as [rest' p'']. simpl in *.
  constructor; [assumption|].
  eapply Forall2_impl; [|exact IH].
  intros a b. now apply slotOutcome_mono.
Qed.

(** Slots that are not empty are left as they are. *)
Lemma assignLoop_frame rand refs slots : forall p,
  Forall2 (fun s s' => TargetSlot.isEmpty s = false -> s' = s) slots
          (fst (assignLoop toLowerCase rand refs slots p)).
Proof.
  induction slots as [|slot rest IH]; intros p; cbn [assignLoop];
    [constructor|].
  destruct (assignSlot _ _ _ _ _) as [slot' p'] eqn:E.
  specialize (IH p').
  destruct (assignLoop _ _ _ _ _) as [rest' p'']. simpl in *.
  constructor; [|assumption].
  intros H. rewrite (assignSlot_nonempty _ _ _ _ H) in E. congruence.
Qed.

(** The random stream decides nothing but the confidence values. *)
Lemma assignSlot_rand_irrelevant rand1 rand2 refs slot p :
  proposal (fst (assignSlot toLowerCase rand1 refs slot p))
  = proposal (fst (assignSlot toLowerCase rand2 refs slot p))
  /\ snd (assignSlot toLowerCase rand1 refs slot p)
     = snd (assignSlot toLowerCase rand2 refs slot p).
Proof.
  unfold assignSlot. destruct p as [[objs k] c].
  destruct (TargetSlot.isEmpty slot); [|auto].
  destruct (find _ refs) as [l|]; [|auto].
  destruct (nth_error objs l); auto.
Qed.

Lemma assignLoop_rand_irrelevant rand1 rand2 refs slots : forall p,
  map proposal (fst (assignLoop toLowerCase rand1 refs slots p))
  = map proposal (fst (assignLoop toLowerCase rand2 refs slots p))
  /\ snd (assignLoop toLowerCase rand1 refs slots p)
     = snd (assignLoop toLowerCase rand2 refs slots p).
Proof.
  induction slots as [|slot rest IH]; intros p; cbn [assignLoop];
    [auto|].
  destruct (assignSlot_rand_irrelevant rand1 rand2 refs slot p) as [H1 H2].
  destruct (assignSlot toLowerCase rand1 _ _ _) as [s1 p1].
  destruct (assignSlot toLowerCase rand2 _ _ _) as [s2 p2].
  simpl in *. subst p2.
  destruct (IH p1) as [H3 H4].
  destruct (assignLoop toLowerCase rand1 _ _ _) as [r1 q1].
  destruct (assignLoop toLowerCase rand2 _ _ _) as [r2 q2].
  simpl in *. split; [|assumption]. now f_equal.
Qed.

Lemma assignLoop_confidences rand1 rand2 refs slots : forall p,
  Forall2 (confidenceFromDraws rand1 rand2)
          (fst (assignLoop toLowerCase rand1 refs slots p))
          (fst (assignLoop toLowerCase rand2 refs slots p)).
Proof.
  induction slots as [|slot rest IH]; intros p; cbn [assignLoop];
    [constructor|].
  pose proof (assignSlot_rand_irrelevant rand1 rand2 refs slot p) as [_ H2].
  assert (Hc : confidenceFromDraws rand1 rand2
                 (fst (assignSlot toLowerCase rand1 refs slot p))
                 (fst (assignSlot toLowerCase rand2 refs slot p))).
  { unfold assignSlot, confidenceFromDraws. destruct p as [[objs k] c].
    destruct (TargetSlot.isEmpty slot); [|now left].
    destruct (find _ refs) as [l|]; [|now left].
    destruct (nth_error objs l); [|now left].
    right. exists k. auto. }
  destruct (assignSlot toLowerCase rand1 _ _ _) as [s1 p1].
  destruct (assignSlot toLowerCase rand2 _ _ _) as [s2 p2].
  simpl in *. subst p2. specialize (IH p1).
  destruct (assignLoop toLowerCase rand1 _ _ _) as [r1 q1].
  destruct (assignLoop toLowerCase rand2 _ _ _) as [r2 q2].
  simpl in *. now constructor.
Qed.

Lemma pairedOutcome_mono rand1 rand2 k k' s s1 s2 :
  k <= k' -> pairedOutcome rand1 rand2 k' s s1 s2 ->
  pairedOutcome rand1 rand2 k s s1 s2.
Proof.
  intros Hk [H|(He & l & j & Hj & H)]; [now left|].
  right. split; [assumption|]. exists l, j. split; [lia|assumption].
Qed.

(** Slot by slot, two runs do the same thing up to the draw they read. *)
Lemma assignLoop_paired rand1 rand2 refs slots : forall objs k c,
  Forall2 (fun s p => pairedOutcome rand1 rand2 k s (fst p) (snd p))
          slots
          (combine (fst (assignLoop toLowerCase rand1 refs slots (objs, k, c)))
                   (fst (assignLoop toLowerCase rand2 refs slots
                                    (objs, k, c)))).
Proof.
  induction slots as [|slot rest IH]; intros objs k c; cbn [assignLoop];
    [constructor|].
  assert (Hc : pairedOutcome rand1 rand2 k slot
                 (fst (assignSlot toLowerCase rand1 refs slot (objs, k, c)))
                 (fst (assignSlot toLowerCase rand2 refs slot (objs, k, c)))
               /\ snd (assignSlot toLowerCase rand1 refs slot (objs, k, c))
                  = snd (assignSlot toLowerCase rand2 refs slot (objs, k, c))
               /\ k <= snd (fst (snd (assignSlot toLowerCase rand1 refs slot
                                                 (objs, k, c))))).
  { unfold assignSlot, pairedOutcome.
    destruct (TargetSlot.isEmpty slot) eqn:E; simpl; [|auto].
    destruct (find _ refs) as [l|]; simpl; [|auto].
    destruct (nth_error objs l) as [f|]; simpl; [|auto].
    split; [|split; [reflexivity|lia]].
    right. split; [reflexivity|]. exists l, k. auto. }
  destruct Hc as (Hp & Hs & Hk).
  destruct (assignSlot toLowerCase rand1 _ _ _) as [s1 [[objs1 k1] c1]].
  destruct (assignSlot toLowerCase rand2 _ _ _) as [s2 p2].
  cbn [fst snd] in *. subst p2. specialize (IH objs1 k1 c1).
  destruct (assignLoop toLowerCase rand1 _ _ _) as [r1 q1].
  destruct (assignLoop toLowerCase rand2 _ _ _) as [r2 q2].
  cbn [fst snd combine] in *. constructor; [exact Hp|].
  eapply Forall2_impl; [|exact IH].
  intros a b. now apply pairedOutcome_mono.
Qed.

(** Equal draws give equal results. *)
Lemma assignLoop_same_draws rand1 rand2 refs slots :
  (forall k, rand1 k = rand2 k) ->
  forall p,
    assignLoop toLowerCase rand1 refs slots p
    = assignLoop toLowerCase rand2 refs slots p.
Proof.
  intros H. induction slots as [|slot rest IH]; intros p; cbn [assignLoop];
    [reflexivity|].
  assert (E : assignSlot toLowerCase rand1 refs slot p
              = assignSlot toLowerCase rand2 refs slot p).
  { unfold assignSlot. destruct p as [[objs k] c]. now rewrite H. }
  rewrite E. destruct (assignSlot toLowerCase rand2 refs slot p) as [s' p'].
  now rewrite IH.
Qed.

(** With no candidate at all the loop changes nothing. *)
Lemma assignLoop_no_files rand slots : forall p,
  assignLoop toLowerCase rand [] slots p = (slots, p).
Proof.
  induction slots as [|slot rest IH]; intros p; cbn [assignLoop];
    [reflexivity|].
  assert (E : assignSlot toLowerCase rand [] slot p = (slot, p)).
  { unfold assignSlot. destruct p as [[objs k] c].
    now destruct (TargetSlot.isEmpty slot). }
  now rewrite E, IH.
Qed.

(** The slots, objects and cursor after [autoAssignFiles] are those the
    loop computes, also when the guard returns early. *)
Lemma autoAssignFiles_loop toISOString rand now st :
  let r := assignLoop toLowerCase rand (stagedFiles st) (targetSlots st)
                      (store st, cursor st, 0) in
  targetSlots (autoAssignFiles toLowerCase toISOString rand now st) = fst r
  /\ store (autoAssignFiles toLowerCase toISOString rand now st)
     = fst (fst (snd r))
  /\ cursor (autoAssignFiles toLowerCase toISOString rand now st)
     = snd (fst (snd r))
  /\ stagedFiles (autoAssignFiles toLowerCase toISOString rand now st)
     = stagedFiles st.
Proof.
  unfold autoAssignFiles.
  destruct (stagedFiles st) as [|l refs] eqn:Ef.
  - simpl. rewrite assignLoop_no_files. simpl. rewrite Ef. auto.
  - destruct (targetSlots st) as [|slot rest] eqn:Es.
    + simpl. rewrite Ef, Es. auto.
    + cbn [length Nat.eqb orb].
      destruct (assignLoop _ _ _ _ _) as [slots' [[objs k] c]].
      simpl. auto.
Qed.

End AssignFacts.

(** C5. An auto-assignment pass leaves every slot that is not empty exactly
    as it was: status, assigned file and confidence (and id, path, type) are
    unchanged. *)
Theorem auto_assign_keeps_filled_slots
        (toLowerCase : jsstring -> jsstring) (toISOString : nat -> jsstring)
        (rand : nat -> Q) (now : nat) (st : State) :
  Forall2 (fun s s' => TargetSlot.status s <> TargetSlot.empty -> s' = s)
          (targetSlots st)
          (targetSlots (autoAssignFiles toLowerCase toISOString rand now st)).
Proof.
  destruct (autoAssignFiles_loop toLowerCase toISOString rand now st)
    as (-> & _).
  eapply Forall2_impl; [|apply assignLoop_frame].
  intros s s' H Hs. apply H. unfold TargetSlot.isEmpty.
  destruct (TargetSlot.status s); congruence.
Qed.

(** C1, as the code has it.  Two runs of the auto-assignment on the same
    slots and files agree on every (slot, file) pair and status, on the
    updated file objects and on the number of draws made, whatever the
    random draws are.  Each slot is either left as it is by both runs or
    filled by both with the same file, each run recording the confidence
    [75 + 20 r] for its own draw [r], read at the same position of the
    random stream in both runs; so the confidence values are the only part
    of the result that depends on the draws, and two runs with equal draws
    give the same slots, confidences included. *)
Theorem auto_assign_deterministic_up_to_confidence
        (toLowerCase : jsstring -> jsstring) (toISOString : nat -> jsstring)
        (rand1 rand2 : nat -> Q) (now : nat) (st : State) :
  let s1 := autoAssignFiles toLowerCase toISOString rand1 now st in
  let s2 := autoAssignFiles toLowerCase toISOString rand2 now st in
  map proposal (targetSlots s1) = map proposal (targetSlots s2)
  /\ store s1 = store s2
  /\ stagedFiles s1 = stagedFiles s2
  /\ cursor s1 = cursor s2
  /\ Forall2 (confidenceFromDraws rand1 rand2)
             (targetSlots s1) (targetSlots s2)
  /\ Forall2 (fun s p =>
                pairedOutcome rand1 rand2 (cursor st) s (fst p) (snd p))
             (targetSlots st) (combine (targetSlots s1) (targetSlots s2))
  /\ ((forall k, rand1 k = rand2 k) -> targetSlots s1 = targetSlots s2).
Proof.
  intros s1 s2. subst s1 s2.
  destruct (autoAssignFiles_loop toLowerCase toISOString rand1 now st)
    as (-> & -> & -> & ->).
  destruct (autoAssignFiles_loop toLowerCase toISOString rand2 now st)
    as (-> & -> & -> & ->).
  destruct (assignLoop_rand_irrelevant toLowerCase rand1 rand2
              (stagedFiles st) (targetSlots st) (store st, cursor st, 0))
    as [Hp Hs].
  rewrite Hp, Hs.
  repeat split.
  - apply assignLoop_confidences.
  - apply assignLoop_paired.
  - intros H.
    now rewrite (assignLoop_same_draws toLowerCase rand1 rand2
                   (stagedFiles st) (targetSlots st) H).
Qed.

(** C1 fails as stated: after one click on "Add Files" and a build of the
    structure [a.pdf], a run whose draw is 0 records confidence 75 for the
    slot and a run whose draw is 1/2 records 85. *)
Lemma auto_assign_confidence_not_deterministic :
  ~ (forall rand1 rand2 : nat -> Q,
       (forall k, 0 <= rand1 k < 1)%Q -> (forall k, 0 <= rand2 k < 1)%Q ->
       Forall2 sameConfidence
         (targetSlots (autoAssignFiles asciiLower isoStub rand1 3000
                         stagedPdfState))
         (targetSlots (autoAssignFiles asciiLower isoStub rand2 3000
                         stagedPdfState))).
Proof.
  intros H.
  specialize (H drawZero drawHalf).
  assert (H0 : forall k, (0 <= drawZero k < 1)%Q)
    by (intros k; unfold drawZero; split; reflexivity || discriminate).
  assert (H1 : forall k, (0 <= drawHalf k < 1)%Q)
    by (intros k; unfold drawHalf; split; reflexivity || discriminate).
  specialize (H H0 H1).
  assert (E0 : targetSlots (autoAssignFiles asciiLower isoStub drawZero 3000
                              stagedPdfState)
               = [ TargetSlot.mk (lit "slot_0") (lit "a.pdf") file
                                 (Some 0) TargetSlot.autoMatched
                                 (Some (75 + 0 * 20)%Q) ])
    by reflexivity.
  assert (E1 : targetSlots (autoAssignFiles asciiLower isoStub drawHalf 3000
                              stagedPdfState)
               = [ TargetSlot.mk (lit "slot_0") (lit "a.pdf") file
                                 (Some 0) TargetSlot.autoMatched
                                 (Some (75 + (1 # 2) * 20)%Q) ])
    by reflexivity.
  rewrite E0, E1 in H.
  inversion H as [|? ? ? ? Hc _]; subst.
  vm_compute in Hc. discriminate.
Qed.

(** A pass over [mixedState] fills the empty slot and leaves the slot that
    was filled before, and the file it refers to, untouched. *)
Example mixed_state_pass :
  let st := autoAssignFiles asciiLower isoStub drawHalf 3000 mixedState in
  targetSlots st
  = [ TargetSlot.mk (lit "slot_0") (lit "invoice.pdf") file (Some 0)
                    TargetSlot.autoMatched (Some (75 + (1 # 2) * 20)%Q);
      TargetSlot.mk (lit "slot_1") (lit "notes.pdf") file (Some 1)
                    TargetSlot.autoMatched (Some (80 # 1)%Q) ]
  /\ nth_error (store st) 1 = nth_error (store mixedState) 1
  /\ cursor st = 2.
Proof. repeat split. Qed.

(** C2, as the code has it.  A slot filled by an auto-assignment pass records
    the confidence [75 + 20 r], where [r] in [0,1) is a draw of the random
    source; the value is a percentage between 75 and 95.  In particular the
    slot [invoice.pdf] with the staged file [invoice_final.pdf] is
    auto-matched to that file (its lower-cased name contains [pdf]) with the
    confidence [75 + 20 r] of the first draw. *)
Theorem auto_match_confidence_is_random_percent
        (toLowerCase : jsstring -> jsstring) (toISOString : nat -> jsstring)
        (rand : nat -> Q) (now : nat) (st : State) :
  (forall k, 0 <= rand k < 1)%Q ->
  Forall2 (fun s s' =>
             TargetSlot.status s = TargetSlot.empty ->
             TargetSlot.status s' = TargetSlot.autoMatched ->
             exists k,
               TargetSlot.confidence s' = Some (75 + rand k * 20)%Q
               /\ (75 <= 75 + rand k * 20 <= 95)%Q)
          (targetSlots st)
          (targetSlots (autoAssignFiles toLowerCase toISOString rand now st))
  /\ targetSlots (autoAssignFiles asciiLower toISOString rand now invoiceState)
     = [ TargetSlot.mk (lit "slot_0") (lit "invoice.pdf") file (Some 0)
                       TargetSlot.autoMatched (Some (75 + rand 0%nat * 20)%Q) ].
Proof.
  intros Hr. split; [|reflexivity].
  destruct (autoAssignFiles_loop toLowerCase toISOString rand now st)
    as (-> & _).
  eapply Forall2_impl; [|apply assignLoop_outcomes].
  intros s s' [->|(_ & l & k & _ & ->)] He Hm.
  - congruence.
  - exists k. split; [reflexivity|].
    specialize (Hr k). split; lra.
Qed.

(** The statement above at the draw 1/2 on the invoice scenario. *)
Lemma auto_match_confidence_is_random_percent_witness :
  (forall k, 0 <= drawHalf k < 1)%Q
  /\ targetSlots (autoAssignFiles asciiLower isoStub drawHalf 0 invoiceState)
     = [ TargetSlot.mk (lit "slot_0") (lit "invoice.pdf") file (Some 0)
                       TargetSlot.autoMatched
                       (Some (75 + drawHalf 0%nat * 20)%Q) ].
Proof.
  assert (H : (forall k, 0 <= drawHalf k < 1)%Q)
    by (intros k; unfold drawHalf; split; reflexivity || discriminate).
  split; [exact H|].
  exact (proj2 (auto_match_confidence_is_random_percent
                  asciiLower isoStub drawHalf 0 invoiceState H)).
Defined.

(** C2 fails as stated: for the slot [invoice.pdf] and the staged file
    [invoice_final.pdf] no draw of the random source gives a confidence of
    at most 1; the value recorded is at least 75. *)
Lemma invoice_confidence_outside_unit_interval :
  ~ (exists rand : nat -> Q,
       (forall k, 0 <= rand k < 1)%Q
       /\ exists s c,
           targetSlots (autoAssignFiles asciiLower isoStub rand 0 invoiceState)
           = [s]
           /\ TargetSlot.confidence s = Some c
           /\ (0 <= c <= 1)%Q).
Proof.
  intros (rand & Hr & s & c & Hs & Hc & Hle).
  change (targetSlots (autoAssignFiles asciiLower isoStub rand 0 invoiceState))
    with [ TargetSlot.mk (lit "slot_0") (lit "invoice.pdf") file (Some 0)
                         TargetSlot.autoMatched (Some (75 + rand 0%nat * 20)%Q) ]
    in Hs.
  injection Hs as <-. simpl in Hc. injection Hc as <-.
  specialize (Hr 0). lra.
Qed.

(** C4 on the failing run.  After two clicks on "Add Files" that read the
    same clock value, the staging list holds two distinct files with the id
    [1000]; the auto-assignment gives them to the two PDF slots, so that id
    is the assigned file of two slots.  The same happens with two clicks one
    millisecond apart, for the id [1001]. *)
Theorem duplicate_file_id_in_two_slots :
  let st := run asciiLower isoStub [] drawHalf sameTickClicks in
  let st' := run asciiLower isoStub [] drawHalf nextTickClicks in
  map TargetSlot.assignedFile (targetSlots st) = [Some 0; Some 2]
  /\ assignedIds st = [lit "1000"; lit "1000"]
  /\ map TargetSlot.assignedFile (targetSlots st') = [Some 1; Some 0; Some 2]
  /\ assignedIds st' = [lit "1001"; lit "1000"; lit "1001"].
Proof. vm_compute. auto. Qed.

(* ================================================================== *)
(** ** The simulated batch executor and the package operation *)
(* ================================================================== *)

Section ExecutorFacts.

Variable toISOString : nat -> jsstring.
Variable typeErrorMessage : jsstring.

(** The loop over a run of objects followed by [tail], which is empty or
    starts with a [null] element. *)
Lemma processItems_objects onProgress total tail :
  quiet onProgress ->
  forall views i,
    let r := processItems typeErrorMessage total i
                          (map Some views ++ tail) onProgress in
    length (fst r) = callsFor onProgress (length views)
                     + length (fst (processItems typeErrorMessage total
                                      (i + length views) tail onProgress))
    /\ snd r = snd (processItems typeErrorMessage total
                                 (i + length views) tail onProgress).
Proof.
  intros Hq views.
  induction views as [|v vs IH]; intros i; cbn zeta.
  - simpl. rewrite Nat.add_0_r. destruct onProgress; auto.
  - cbn [map app processItems length].
    replace (i + S (length vs)) with (i + 1 + length vs) by lia.
    specialize (IH (i + 1)). cbn zeta in IH.
    destruct onProgress as [cb|]; simpl in Hq.
    + rewrite Hq.
      destruct (processItems _ _ (i + 1) (map Some vs ++ tail) _)
        as [calls thrown].
      simpl in *. destruct IH as [IH1 IH2]. split; [lia|assumption].
    + exact IH.
Qed.

Lemma simulate_objects now operationType views onProgress st :
  quiet onProgress ->
  let r := simulateFileOperation toISOString typeErrorMessage now
             operationType (map Some views) onProgress st in
  fst (fst r) = Succeeded (length views)
  /\ length (snd (fst r)) = callsFor onProgress (length views)
  /\ isProcessing (snd r) = false.
Proof.
  intros Hq. cbn zeta. unfold simulateFileOperation.
  destruct (addOperation _ _ _ _ _ _) as [operationId ops].
  pose proof (processItems_objects onProgress (length (map Some views)) []
                Hq views 0) as H.
  cbn zeta in H. rewrite app_nil_r in H. simpl in H.
  destruct (processItems _ _ 0 (map Some views) onProgress)
    as [calls thrown].
  simpl in H. destruct H as [H1 ->]. simpl.
  rewrite length_map. repeat split. lia.
Qed.

Lemma simulate_null_item now operationType views post onProgress st :
  quiet onProgress ->
  let r := simulateFileOperation toISOString typeErrorMessage now
             operationType (map Some views ++ None :: post) onProgress st in
  fst (fst r) = Failed (ErrorInstance typeErrorMessage)
  /\ length (snd (fst r)) = callsFor onProgress (length views)
  /\ isProcessing (snd r) = false.
Proof.
  intros Hq. cbn zeta. unfold simulateFileOperation.
  destruct (addOperation _ _ _ _ _ _) as [operationId ops].
  pose proof (processItems_objects onProgress
                (length (map Some views ++ None :: post)) (None :: post)
                Hq views 0) as H.
  cbn zeta in H. simpl in H.
  destruct (processItems _ _ 0 (map Some views ++ None :: post) onProgress)
    as [calls thrown].
  simpl in H. destruct H as [H1 ->]. simpl.
  repeat split. lia.
Qed.

End ExecutorFacts.

(** C8, as the code has it.  The executor never throws to its caller and
    never examines a source.  With a progress callback that returns
    normally, a batch of N objects yields the result
    [{ success: true, processedCount: N }] after one progress call per item;
    a batch whose first [null] element comes after [k] objects yields
    [{ success: false, error }] after [k] progress calls, the elements after
    it are not processed.  In both cases [isProcessing] is reset. *)
Theorem batch_succeeds_whole_or_aborts
        (toISOString : nat -> jsstring) (typeErrorMessage : jsstring)
        (now : nat) (operationType : jsstring)
        (views : list ItemView) (post : list (option ItemView))
        (onProgress : option ProgressCallback) (st : HookState) :
  quiet onProgress ->
  let ok := simulateFileOperation toISOString typeErrorMessage now
              operationType (map Some views) onProgress st in
  let ko := simulateFileOperation toISOString typeErrorMessage now
              operationType (map Some views ++ None :: post) onProgress st in
  (fst (fst ok) = Succeeded (length views)
   /\ length (snd (fst ok)) = callsFor onProgress (length views)
   /\ isProcessing (snd ok) = false)
  /\ (fst (fst ko) = Failed (ErrorInstance typeErrorMessage)
      /\ length (snd (fst ko)) = callsFor onProgress (length views)
      /\ isProcessing (snd ko) = false).
Proof.
  intros Hq. split.
  - now apply simulate_objects.
  - now apply simulate_null_item.
Qed.

(** The statement above on a batch of three whose second element is
    [null], with a callback that only records. *)
Lemma batch_succeeds_whole_or_aborts_witness :
  quiet silent
  /\ fst (fst (simulateFileOperation isoStub (lit "TypeError") 0
                 (lit "organize_copy")
                 [ Some (mkView (Some (lit "a.pdf")) None); None;
                   Some (mkView (Some (lit "c.pdf")) None) ]
                 silent idle))
     = Failed (ErrorInstance (lit "TypeError")).
Proof.
  assert (H : quiet silent) by (intros q m; reflexivity).
  split; [exact H|].
  exact (proj1 (proj2 (batch_succeeds_whole_or_aborts
                         isoStub (lit "TypeError") 0 (lit "organize_copy")
                         [mkView (Some (lit "a.pdf")) None]
                         [Some (mkView (Some (lit "c.pdf")) None)]
                         silent idle H))).
Defined.

(** C8 fails as stated.  A plan of three entries, whatever their sources,
    is reported as three items processed with nothing failed; and a batch of
    three whose second element is [null] gives a failure result for the whole
    batch after one progress call: the third item is never processed, and
    the result is not "2 succeeded, 1 failed". *)
Lemma one_bad_item_is_not_contained :
  fst (fst (organizeFiles isoStub (lit "TypeError") 0 threeAssignments
              (lit "/organized") copy silent idle))
  = Succeeded 3
  /\ fst (fst (simulateFileOperation isoStub (lit "TypeError") 0
                 (lit "organize_copy") batchWithNull silent idle))
     = Failed (ErrorInstance (lit "TypeError"))
  /\ length (snd (fst (simulateFileOperation isoStub (lit "TypeError") 0
                         (lit "organize_copy") batchWithNull silent idle)))
     = 1
  /\ fst (fst (simulateFileOperation isoStub (lit "TypeError") 0
                 (lit "organize_copy") batchWithNull silent idle))
     <> Succeeded 2.
Proof.
  split; [reflexivity|]. split; [reflexivity|].
  split; [reflexivity|]. discriminate.
Qed.

(** C9, as the code has it.  For every plan, with a progress callback that
    returns normally, the package operation succeeds and hands the browser
    one file named [packageName.zip] whose content is the fixed placeholder
    text, the same for every plan; no item and no target path is written
    into it. *)
Theorem package_is_fixed_placeholder
        (F : Type) (toISOString : nat -> jsstring)
        (typeErrorMessage : jsstring) (now : nat)
        (assignments : list (Assignment F)) (packageName : jsstring)
        (onProgress : option ProgressCallback) (st : HookState) :
  quiet onProgress ->
  let r := createPackage toISOString typeErrorMessage now assignments
                         packageName onProgress st in
  fst (fst (fst r)) = Succeeded (length assignments)
  /\ snd (fst (fst r))
     = Some (mkDownload [packageText] (lit "application/zip")
                        (packageName ++ lit ".zip")).
Proof.
  intros Hq. cbn zeta. unfold createPackage.
  pose proof (simulate_objects toISOString typeErrorMessage now
                (lit "create_package")
                (map (fun _ => mkView None None) assignments)
                onProgress st Hq) as H.
  cbn zeta in H. rewrite map_map, length_map in H.
  change (map (fun x : Assignment F => Some (mkView None None)) assignments)
    with (map (@viewAssignment F) assignments) in H.
  destruct (simulateFileOperation _ _ _ _ _ _ _) as [[result calls] st'].
  simpl in *. destruct H as (-> & _). auto.
Qed.

(** The statement above on the one-entry plan for [docs/report.pdf]. *)
Lemma package_is_fixed_placeholder_witness :
  quiet silent
  /\ snd (fst (fst (createPackage isoStub (lit "TypeError") 0 reportPlan
                      (lit "bundle") silent idle)))
     = Some (mkDownload [packageText] (lit "application/zip")
                        (lit "bundle" ++ lit ".zip")).
Proof.
  assert (H : quiet silent) by (intros q m; reflexivity).
  split; [exact H|].
  exact (proj2 (package_is_fixed_placeholder jsstring isoStub
                  (lit "TypeError") 0 reportPlan (lit "bundle") silent idle
                  H)).
Defined.

(** C9 fails as stated: the archive produced for the plan that stores
    [report_v2.pdf] under [docs/report.pdf] contains neither the target path
    nor the source name, and it is the very archive produced for a different
    plan of three entries. *)
Lemma package_ignores_the_plan :
  (exists d,
      snd (fst (fst (createPackage isoStub (lit "TypeError") 0 reportPlan
                       (lit "bundle") silent idle))) = Some d
      /\ includes (concat (blobParts d)) (lit "docs/report.pdf") = false
      /\ includes (concat (blobParts d)) (lit "report_v2.pdf") = false)
  /\ snd (fst (fst (createPackage isoStub (lit "TypeError") 0 reportPlan
                      (lit "bundle") silent idle)))
     = snd (fst (fst (createPackage isoStub (lit "TypeError") 0
                        threeAssignments (lit "bundle") silent idle))).
Proof.
  split; [|reflexivity].
  eexists. split; [reflexivity|]. split; vm_compute; reflexivity.
Qed.

(* ================================================================== *)
(** ** Exclusivity of assignments on file objects *)
(* ================================================================== *)

Section StoreFacts.

Context {A : Type}.

Lemma nth_error_writeAt_same (xs : list A) : forall l v,
  l < length xs -> nth_error (writeAt l v xs) l = Some v.
Proof.
  induction xs as [|x r IH]; intros [|l] v H; simpl in *; try lia.
  - reflexivity.
  - apply IH. lia.
Qed.

Lemma nth_error_writeAt_other (xs : list A) : forall l l' v,
  l <> l' -> nth_error (writeAt l v xs) l' = nth_error xs l'.
Proof.
  induction xs as [|x r IH]; intros [|l] [|l'] v H; simpl;
    try reflexivity; try congruence.
  apply IH. congruence.
Qed.

End StoreFacts.

Section Exclusivity.

Variable toLowerCase : jsstring -> jsstring.
Variable toISOString : nat -> jsstring.
Variable typeErrorMessage : jsstring.
Variable rand : nat -> Q.

(** The two ways an iteration can end: nothing changes, or a staged file of
    the staging list is consumed. *)
Lemma assignSlot_cases refs slot objs k c :
  assignSlot toLowerCase rand refs slot (objs, k, c) = (slot, (objs, k, c))
  \/ exists l f slot' f',
      In l refs /\ nth_error objs l = Some f
      /\ StagedFile.isStaged f = true
      /\ TargetSlot.assignedFile slot' = Some l
      /\ StagedFile.isStaged f' = false
      /\ assignSlot toLowerCase rand refs slot (objs, k, c)
         = (slot', (writeAt l f' objs, k + 1, c + 1)).
Proof.
  unfold assignSlot.
  destruct (TargetSlot.isEmpty slot); [|now left].
  destruct (find _ refs) as [l|] eqn:Ef; [|now left].
  apply find_some in Ef. destruct Ef as [Hin Hm].
  unfold isMatch in Hm.
  destruct (nth_error objs l) as [f|] eqn:El; [|discriminate].
  apply andb_true_iff in Hm. destruct Hm as [Hs _].
  right. exists l, f. do 2 eexists.
  split; [exact Hin|]. split; [exact El|]. split; [exact Hs|].
  split; [|split]; [| |reflexivity]; reflexivity.
Qed.

Lemma assignLoop_exclusive refs slots : forall held objs k c,
  NoDup (held ++ assignedLocs slots) ->
  settled objs (held ++ assignedLocs slots) ->
  let r := assignLoop toLowerCase rand refs slots (objs, k, c) in
  NoDup (held ++ assignedLocs (fst r))
  /\ settled (fst (fst (snd r))) (held ++ assignedLocs (fst r)).
Proof.
  induction slots as [|slot rest IH]; intros held objs k c Hnd Hst;
    cbn [assignLoop]; [now split|].
  change (assignedLocs (slot :: rest))
    with (match TargetSlot.assignedFile slot with
          | Some l => [l] | None => [] end ++ assignedLocs rest) in *.
  destruct (assignSlot_cases refs slot objs k c)
    as [E|(l & f & slot' & f' & Hin & Hl & Hs & Ha & Hs' & E)]; rewrite E.
  - rewrite app_assoc in Hnd, Hst.
    specialize (IH _ objs k c Hnd Hst). cbn zeta in IH.
    destruct (assignLoop _ _ _ _ _) as [rest' [[objs' k'] c']].
    simpl in *. now rewrite app_assoc.
  - assert (Hfresh : ~ In l (held ++ assignedLocs rest)).
    { intros H. destruct (Hst l) as (f0 & Hf0 & Hn).
      - apply in_app_iff in H. rewrite !in_app_iff. tauto.
      - congruence. }
    assert (Hnd' : NoDup (held ++ assignedLocs rest)).
    { destruct (TargetSlot.assignedFile slot); [|exact Hnd].
      now apply NoDup_remove_1 in Hnd. }
    assert (Hlt : l < length objs) by (apply nth_error_Some; congruence).
    specialize (IH (held ++ [l]) (writeAt l f' objs) (k + 1) (c + 1)).
    cbn zeta in IH. rewrite <- !app_assoc in IH. simpl in IH.
    destruct (assignLoop _ _ _ _ _) as [rest' [[objs' k'] c']].
    simpl in *. rewrite Ha. simpl. apply IH.
    + eapply NoDup_Add; [apply Add_app|]. now split.
    + intros l' Hl'.
      destruct (Nat.eq_dec l l') as [<-|Hne].
      * exists f'. split; [now apply nth_error_writeAt_same|assumption].
      * rewrite nth_error_writeAt_other by assumption. apply Hst.
        rewrite !in_app_iff in *. simpl in Hl'. tauto.
Qed.

Lemma assignLoop_keeps_settled refs slots l f : forall objs k c,
  nth_error objs l = Some f -> StagedFile.isStaged f = false ->
  nth_error
    (fst (fst (snd (assignLoop toLowerCase rand refs slots (objs, k, c))))) l
  = Some f.
Proof.
  induction slots as [|slot rest IH]; intros objs k c Hl Hs;
    cbn [assignLoop]; [assumption|].
  destruct (assignSlot_cases refs slot objs k c)
    as [E|(l0 & f0 & slot' & f' & _ & Hl0 & Hs0 & _ & _ & E)]; rewrite E.
  - specialize (IH objs k c Hl Hs).
    destruct (assignLoop _ _ _ _ _) as [rest' [[objs' k'] c']]. exact IH.
  - assert (Hne : l0 <> l) by congruence.
    specialize (IH (writeAt l0 f' objs) (k + 1) (c + 1)).
    rewrite nth_error_writeAt_other in IH by assumption.
    specialize (IH Hl Hs).
    destruct (assignLoop _ _ _ _ _) as [rest' [[objs' k'] c']]. exact IH.
Qed.

Lemma slotsFrom_unassigned lines : forall index,
  assignedLocs (slotsFrom index lines) = [].
Proof.
  induction lines as [|line rest IH]; intros index; [reflexivity|].
  destruct (slot_of_line index line rest) as [(_ & _ & E)|(_ & E)];
    rewrite E; [|apply IH].
  unfold assignedLocs in *. simpl. apply IH.
Qed.

Lemma organizeMap_extends objs0 assignments refs : forall objs,
  exists extra,
    snd (organizeMap objs0 assignments refs objs) = objs ++ extra.
Proof.
  induction refs as [|l rest IH]; intros objs; cbn [organizeMap].
  - exists []. now rewrite app_nil_r.
  - destruct (match idAt objs0 l with Some _ => _ | None => _ end).
    + destruct (nth_error objs0 l) as [f|].
      * destruct (IH (objs ++ [markOrganized f])) as [extra E].
        destruct (organizeMap _ _ rest (objs ++ _)) as [rest' objs'].
        simpl in *. subst objs'. rewrite <- app_assoc. eauto.
      * destruct (IH objs) as [extra E].
        destruct (organizeMap _ _ rest objs) as [rest' objs'].
        simpl in *. eauto.
    + destruct (IH objs) as [extra E].
      destruct (organizeMap _ _ rest objs) as [rest' objs'].
      simpl in *. eauto.
Qed.

Lemma settled_grows objs extra ls :
  settled objs ls -> settled (objs ++ extra) ls.
Proof.
  intros H l Hl. destruct (H l Hl) as (f & Hf & Hs).
  exists f. split; [|assumption].
  rewrite nth_error_app1; [assumption|].
  apply nth_error_Some. congruence.
Qed.

Lemma step_exclusive (st : State) (a : Action) :
  Exclusive st ->
  Exclusive (step toLowerCase toISOString typeErrorMessage rand st a).
Proof.
  intros [Hnd Hst]. destruct a as [n1 n2|text|now|now|now|today now];
    cbn [step].
  - split; [exact Hnd|]. unfold addFilesToStage. simpl.
    now apply settled_grows.
  - split; assumption.
  - unfold buildTargetStructure.
    destruct (negb _); [now split|]. unfold Exclusive, buildSlots. simpl.
    rewrite slotsFrom_unassigned. split; [constructor|intros l []].
  - unfold Exclusive.
    destruct (autoAssignFiles_loop toLowerCase toISOString rand now st)
      as (-> & -> & _).
    apply (assignLoop_exclusive (stagedFiles st) (targetSlots st) []);
      assumption.
  - unfold organizeAssignedFiles.
    destruct (length (assignmentsOf st) =? 0); [now split|].
    destruct (organizeFiles _ _ _ _ _ _ _ _) as [[result calls] hook'].
    destruct (resultSuccess result); [|now split].
    destruct (organizeMap_extends (store st) (assignmentsOf st)
                (stagedFiles st) (store st)) as [extra E].
    destruct (organizeMap _ _ _ _) as [refs objs]. simpl in E. subst objs.
    split; [exact Hnd|]. simpl. now apply settled_grows.
  - unfold createOrganizedPackage.
    destruct (length (assignmentsOf st) =? 0); [now split|].
    destruct (createPackage _ _ _ _ _ _ _) as [[[result dl] calls] hook'].
    now split.
Qed.

(** In every state the tab can reach, no file object is the assigned file
    of two slots, and every assigned object has left the ['staged'] status,
    so that a later pass cannot propose it again. *)
Theorem assigned_files_exclusive (actions : list Action) :
  Exclusive (run toLowerCase toISOString typeErrorMessage rand actions).
Proof.
  unfold run.
  assert (H : Exclusive initial)
    by (split; [constructor|intros l []]).
  revert H. generalize initial.
  induction actions as [|a rest IH]; intros st H; simpl; [assumption|].
  apply IH. now apply step_exclusive.
Qed.

(** An auto-assignment pass does not touch a file object that is not
    ['staged']: the file a filled slot refers to in a reachable state is
    unchanged too. *)
Lemma auto_assign_keeps_settled_objects now st l f :
  nth_error (store st) l = Some f -> StagedFile.isStaged f = false ->
  nth_error (store (autoAssignFiles toLowerCase toISOString rand now st)) l
  = Some f.
Proof.
  intros Hl Hs.
  destruct (autoAssignFiles_loop toLowerCase toISOString rand now st)
    as (_ & -> & _).
  now apply assignLoop_keeps_settled.
Qed.

End Exclusivity.

(* ================================================================== *)
(** ** Further properties of the parser and the builder *)
(* ================================================================== *)

Section TrimFacts.

Lemma trimStart_head (s : jsstring) c r :
  trimStart s = c :: r -> isWhiteSpace c = false.
Proof.
  induction s as [|a s IH]; simpl; [discriminate|].
  destruct (isWhiteSpace a) eqn:E; [exact IH|].
  intros H. injection H as <- _. exact E.
Qed.

Lemma trimStart_suffix (s : jsstring) :
  exists pre, s = pre ++ trimStart s.
Proof.
  induction s as [|a s [pre IH]]; simpl; [now exists []|].
  destruct (isWhiteSpace a).
  - exists (a :: pre). simpl. now f_equal.
  - now exists [].
Qed.

Lemma trimStart_incl (s : jsstring) c : In c (trimStart s) -> In c s.
Proof.
  destruct (trimStart_suffix s) as [pre E]. intros H.
  rewrite E. apply in_or_app. now right.
Qed.

Lemma trim_incl (s : jsstring) c : In c (trim s) -> In c s.
Proof.
  unfold trim, trimEnd. intros H.
  apply in_rev in H. apply trimStart_incl in H. apply in_rev in H.
  now apply trimStart_incl.
Qed.

(** The trimmed form neither begins nor ends with whitespace. *)
Lemma trim_head (s : jsstring) c r :
  trim s = c :: r -> isWhiteSpace c = false.
Proof.
  unfold trim, trimEnd. intros H.
  destruct (trimStart_suffix (rev (trimStart s))) as [pre E].
  apply (f_equal (@rev codeUnit)) in E.
  rewrite rev_involutive, rev_app_distr, H in E. simpl in E.
  exact (trimStart_head _ _ _ E).
Qed.

Lemma trim_last (s : jsstring) x c :
  trim s = x ++ [c] -> isWhiteSpace c = false.
Proof.
  unfold trim, trimEnd. intros H.
  apply (f_equal (@rev codeUnit)) in H.
  rewrite rev_involutive, rev_app_distr in H. simpl in H.
  exact (trimStart_head _ _ _ H).
Qed.

Lemma trimStart_blank (s : jsstring) :
  (forall c, In c s -> isWhiteSpace c = true) -> trimStart s = [].
Proof.
  induction s as [|a s IH]; intros H; simpl; [reflexivity|].
  rewrite (H a) by now left. apply IH. intros c Hc. apply H. now right.
Qed.

Lemma split_incl (sep : codeUnit) (s : jsstring) piece c :
  In piece (split sep s) -> In c piece -> In c s.
Proof.
  revert piece. induction s as [|a s IH]; intros piece Hp Hc; simpl in Hp.
  - destruct Hp as [<-|[]]. contradiction.
  - destruct (a =? sep)%N.
    + destruct Hp as [<-|Hp]; [contradiction|]. right. eauto.
    + pose proof (split_nonempty sep s) as Hne.
      destruct (split sep s) as [|h t]; [contradiction|].
      destruct Hp as [<-|Hp].
      * destruct Hc as [<-|Hc]; [now left|]. right.
        apply (IH h); [now left|assumption].
      * right. apply (IH piece); [now right|assumption].
Qed.

Lemma split_app (sep : codeUnit) (a b : jsstring) :
  split sep (a ++ sep :: b) = split sep a ++ split sep b.
Proof.
  induction a as [|c r IH]; simpl.
  - now rewrite N.eqb_refl.
  - destruct (c =? sep)%N; [now rewrite IH|].
    rewrite IH. pose proof (split_nonempty sep r) as Hne.
    destruct (split sep r) as [|h t]; [contradiction|reflexivity].
Qed.

End TrimFacts.

Section ParserExtras.

Lemma itemsOfLine_bare_slash line :
  trim line = [SLASH] -> itemsOfLine line = [].
Proof.
  intros H. unfold itemsOfLine, parseLine. rewrite H. reflexivity.
Qed.

Lemma itemsOfLine_nil_iff line :
  itemsOfLine line = [] <-> discarded line \/ trim line = [SLASH].
Proof.
  split.
  - intros E.
    destruct (truthy (trim line)
              && negb (startsWith (trim line) (lit "#"))) eqn:K.
    + apply kept_iff in K.
      destruct (list_eq_dec N.eq_dec (trim line) [SLASH]) as [Hs|Hs];
        [now right|].
      destruct (itemsOfLine_kept line K Hs) as [n Hn]. congruence.
    + left. now apply not_kept.
  - intros [H|H];
      [now apply itemsOfLine_discarded | now apply itemsOfLine_bare_slash].
Qed.

End ParserExtras.

(** X1. The parser works line by line: the nodes of two texts joined by a
    line break are the nodes of the first followed by the nodes of the
    second. *)
Theorem parse_concatenation (a b : jsstring) :
  parseStructureDefinition (a ++ LF :: b)
  = parseStructureDefinition a ++ parseStructureDefinition b.
Proof.
  rewrite !parse_by_lines, split_app. apply flat_map_app.
Qed.

(** X2. The parser returns no node exactly when every line of the text is
    empty after trimming, a comment, or the bare token [/]; in particular
    for the empty text and for a text of whitespace only. *)
Theorem parse_empty_iff (definition : jsstring) :
  (parseStructureDefinition definition = []
   <-> Forall (fun line => discarded line \/ trim line = [SLASH])
              (split LF definition))
  /\ ((forall c, In c definition -> isWhiteSpace c = true) ->
      parseStructureDefinition definition = []).
Proof.
  assert (H : parseStructureDefinition definition = []
              <-> Forall (fun line => discarded line \/ trim line = [SLASH])
                         (split LF definition)).
  { rewrite parse_by_lines, Forall_forall. split.
    - intros E line Hin. apply itemsOfLine_nil_iff.
      destruct (itemsOfLine line) as [|n ns] eqn:En; [reflexivity|].
      assert (Hn : In n (flat_map itemsOfLine (split LF definition))).
      { apply in_flat_map. exists line. rewrite En. split; [assumption|].
        now left. }
      rewrite E in Hn. contradiction.
    - intros Hall.
      induction (split LF definition) as [|l ls IH]; [reflexivity|].
      simpl. rewrite (proj2 (itemsOfLine_nil_iff l)) by (apply Hall; now left).
      apply IH. intros x Hx. apply Hall. now right. }
  split; [exact H|].
  intros Hws. apply H. apply Forall_forall. intros line Hin.
  left. left. unfold trim.
  rewrite trimStart_blank; [reflexivity|].
  intros c Hc. apply Hws. eapply split_incl; eassumption.
Qed.

(** X3. Every node of the parser has a non-empty path that contains no line
    break and does not begin with whitespace; the path of a file node is the
    whole trimmed token, so it neither ends with [/] nor with whitespace;
    and there are at most as many nodes as lines. *)
Theorem parsed_nodes_well_formed (definition : jsstring) :
  Forall (fun n =>
            (exists c r, path n = c :: r /\ isWhiteSpace c = false)
            /\ ~ In LF (path n)
            /\ (type n = file ->
                ~ endsWithSlash (path n)
                /\ forall x c, path n = x ++ [c] -> isWhiteSpace c = false))
         (parseStructureDefinition definition)
  /\ length (parseStructureDefinition definition)
     <= length (split LF definition).
Proof.
  rewrite parse_by_lines. split.
  - apply Forall_forall. intros n Hin.
    apply in_flat_map in Hin. destruct Hin as (line & Hline & Hn).
    destruct (itemsOfLine_cases line)
      as [E|[m (E & Hk & [Hd Hkind Hpath] & _ & Hne & _)]];
      rewrite E in Hn; simpl in Hn; [contradiction|].
    destruct Hn as [Hn|[]]. subst n.
    assert (Hsub : forall c, In c (path m) -> In c (trim line)).
    { intros c Hc. destruct Hpath as [Ht|[Ht _]].
      - rewrite Ht. apply in_or_app. now left.
      - now rewrite <- Ht. }
    split; [|split].
    + destruct (path m) as [|c r] eqn:Ep; [contradiction|].
      exists c, r. split; [reflexivity|].
      destruct Hpath as [Ht|[Ht _]].
      * simpl in Ht. exact (trim_head _ _ _ Ht).
      * symmetry in Ht. exact (trim_head _ _ _ Ht).
    + intros Hlf. apply Hsub, trim_incl in Hlf.
      pose proof (split_no_sep LF definition) as Hno.
      rewrite Forall_forall in Hno. exact (Hno line Hline Hlf).
    + intros Hf.
      assert (Hns : ~ endsWithSlash (trim line)).
      { intros Hs. apply Hkind in Hs. congruence. }
      destruct Hpath as [Ht|[Ht _]].
      * exfalso. apply Hns. eexists. exact Ht.
      * rewrite Ht. split; [assumption|].
        intros x c Hx. exact (trim_last _ _ _ Hx).
  - induction (split LF definition) as [|l ls IH]; simpl; [lia|].
    rewrite length_app.
    destruct (itemsOfLine_cases l) as [E|[m (E & _)]]; rewrite E; simpl; lia.
Qed.

Section BuilderExtras.

Lemma slotsFrom_paths lines : forall index,
  map TargetSlot.path (slotsFrom index lines)
  = map path (filter isFileItem (flat_map itemsOfLine lines)).
Proof.
  induction lines as [|line rest IH]; intros index; [reflexivity|].
  cbn [flat_map]. rewrite filter_app, map_app, <- (IH (S index)).
  destruct (slot_of_line index line rest) as [(Hk & Hs & E)|(Hd & E)];
    rewrite E.
  - destruct (itemsOfLine_cases line)
      as [En|[m (En & _ & [_ Hkind Hpath] & _)]].
    + apply itemsOfLine_nil_iff in En. destruct En as [En|En].
      * contradiction.
      * exfalso. apply Hs. exists []. exact En.
    + rewrite En. unfold isFileItem. simpl.
      destruct (type m) eqn:Et.
      * simpl. f_equal. destruct Hpath as [Ht|[Ht _]]; [|now symmetry].
        exfalso. apply Hs. eexists. exact Ht.
      * exfalso. apply Hs. now apply Hkind.
  - destruct (itemsOfLine_cases line)
      as [En|[m (En & Hk & [_ Hkind _] & _)]]; rewrite En; [reflexivity|].
    destruct Hd as [Hd|Hd]; [contradiction|].
    unfold isFileItem. simpl.
    apply Hkind in Hd. now rewrite Hd.
Qed.

Lemma flat_map_items_nonblank lines :
  flat_map itemsOfLine (filter (fun line => truthy (trim line)) lines)
  = flat_map itemsOfLine lines.
Proof.
  rewrite flat_map_filter. apply flat_map_ext. intros line.
  destruct (truthy (trim line)) eqn:E; [reflexivity|].
  symmetry. apply itemsOfLine_discarded. left. now apply truthy_false.
Qed.

End BuilderExtras.

(** X4. The skeleton builder and the parser agree: the slots built for a
    text are, in order, the file nodes the parser returns for it (same paths,
    same number), although the builder scans the text itself. *)
Theorem slots_are_parsed_files (definition : jsstring) :
  map TargetSlot.path (buildSlots definition)
  = map path (filter isFileItem (parseStructureDefinition definition)).
Proof.
  unfold buildSlots.
  rewrite slotsFrom_paths, flat_map_items_nonblank, parse_by_lines.
  reflexivity.
Qed.

(* ================================================================== *)
(** ** Further properties of the executor and of the operation log *)
(* ================================================================== *)

Section PercentFacts.

Lemma inject_nat_pos n : 0 < n -> (0 < inject_Z (Z.of_nat n))%Q.
Proof.
  intros H. change 0%Q with (inject_Z 0). rewrite <- Zlt_Qlt. lia.
Qed.

Lemma percent_bounds a b : 0 < a <= b -> (0 < percent a b <= 100)%Q.
Proof.
  intros [Ha Hb]. unfold percent.
  assert (Hb' : (0 < inject_Z (Z.of_nat b))%Q) by (apply inject_nat_pos; lia).
  assert (Ha' : (0 < inject_Z (Z.of_nat a))%Q) by now apply inject_nat_pos.
  assert (Hab : (inject_Z (Z.of_nat a) <= inject_Z (Z.of_nat b))%Q)
    by (rewrite <- Zle_Qle; lia).
  split.
  - apply Qmult_lt_0_compat; [|reflexivity].
    apply Qlt_shift_div_l; [assumption|]. lra.
  - assert (H1 : (inject_Z (Z.of_nat a) / inject_Z (Z.of_nat b) <= 1)%Q)
      by (apply Qle_shift_div_r; [assumption|]; lra).
    lra.
Qed.

Lemma percent_full b : 0 < b -> (percent b b == 100)%Q.
Proof.
  intros Hb. unfold percent.
  assert (Hb' : ~ (inject_Z (Z.of_nat b) == 0)%Q).
  { intros H. change 0%Q with (inject_Z 0) in H.
    rewrite inject_Z_injective in H. lia. }
  field. exact Hb'.
Qed.

Lemma percent_increasing a a' b :
  0 < b -> a < a' -> (percent a b < percent a' b)%Q.
Proof.
  intros Hb Ha. unfold percent.
  assert (Hb' : (0 < inject_Z (Z.of_nat b))%Q) by now apply inject_nat_pos.
  assert (Hab : (inject_Z (Z.of_nat a) < inject_Z (Z.of_nat a'))%Q)
    by (rewrite <- Zlt_Qlt; lia).
  apply Qmult_lt_compat_r; [reflexivity|].
  unfold Qdiv. apply Qmult_lt_compat_r; [|assumption].
  now apply Qinv_lt_0_compat.
Qed.

End PercentFacts.

Section ExecutorExtras.

Variable toISOString : nat -> jsstring.
Variable typeErrorMessage : jsstring.

Lemma processItems_progress cb total views :
  (forall q m, cb q m = None) ->
  forall i,
    map fst (fst (processItems typeErrorMessage total i (map Some views)
                               (Some cb)))
    = map (fun j => percent (j + 1) total) (seq i (length views)).
Proof.
  intros Hq. induction views as [|v vs IH]; intros i; [reflexivity|].
  cbn [map processItems length seq]. rewrite Hq.
  specialize (IH (i + 1)).
  destruct (processItems _ _ (i + 1) (map Some vs) _) as [calls thrown].
  simpl in *. rewrite IH, Nat.add_1_r. reflexivity.
Qed.

Lemma simulate_calls now operationType items onProgress st :
  snd (fst (simulateFileOperation toISOString typeErrorMessage now
              operationType items onProgress st))
  = fst (processItems typeErrorMessage (length items) 0 items onProgress).
Proof.
  unfold simulateFileOperation.
  destruct (addOperation _ _ _ _ _ _) as [operationId ops].
  destruct (processItems _ _ _ _ _) as [calls [e|]]; reflexivity.
Qed.

(** Every batch is a run of objects followed by nothing or by a [null]
    element and a rest. *)
Lemma items_split (items : list (option ItemView)) :
  exists views tail,
    items = map Some views ++ tail
    /\ (tail = [] \/ exists post, tail = None :: post).
Proof.
  induction items as [|[v|] rest (views & tail & E & Ht)].
  - exists [], []. auto.
  - exists (v :: views), tail. simpl. rewrite E. auto.
  - exists [], (None :: rest). split; [reflexivity|]. right. eauto.
Qed.

Lemma eqb_eq (a b : jsstring) : JS.eqb a b = true <-> a = b.
Proof.
  unfold JS.eqb. destruct (list_eq_dec N.eq_dec a b); split;
    congruence.
Qed.

Lemma updateOperation_entries id status details ops :
  Forall2 (fun old new =>
             (Operation.id old <> id -> new = old)
             /\ (Operation.id old = id ->
                 new = Operation.mk id (Operation.type old)
                                    (Operation.timestamp old) details status))
          ops (updateOperation id status details ops).
Proof.
  induction ops as [|op rest IH]; simpl; constructor; [|exact IH].
  destruct (JS.eqb (Operation.id op) id) eqn:E.
  - apply eqb_eq in E. split; [congruence|]. intros _. now rewrite E.
  - split; [reflexivity|]. intros H. apply eqb_eq in H. congruence.
Qed.

End ExecutorExtras.

(** X5. With a progress callback that returns normally, a batch of N
    objects reports the progress values (1/N)*100, (2/N)*100, ..., in this
    order: each lies in (0, 100], the values strictly increase, and the last
    one equals 100. *)
Theorem progress_values
        (toISOString : nat -> jsstring) (typeErrorMessage : jsstring)
        (now : nat) (operationType : jsstring) (views : list ItemView)
        (cb : ProgressCallback) (st : HookState) :
  (forall q m, cb q m = None) ->
  let calls := snd (fst (simulateFileOperation toISOString typeErrorMessage
                           now operationType (map Some views) (Some cb) st)) in
  let N := length views in
  map fst calls = map (fun j => percent (j + 1) N) (seq 0 N)
  /\ Forall (fun q => 0 < q <= 100)%Q (map fst calls)
  /\ (forall j k q q',
         j < k -> nth_error (map fst calls) j = Some q ->
         nth_error (map fst calls) k = Some q' -> (q < q')%Q)
  /\ (0 < N -> (last (map fst calls) 0 == 100)%Q).
Proof.
  intros Hq calls N. subst calls.
  rewrite simulate_calls, length_map.
  rewrite (processItems_progress typeErrorMessage cb (length views) views Hq).
  fold N. split; [reflexivity|]. split; [|split].
  - apply Forall_forall. intros q Hin. apply in_map_iff in Hin.
    destruct Hin as (j & <- & Hj). apply in_seq in Hj.
    apply percent_bounds. lia.
  - intros j k q q' Hjk Hj Hk.
    assert (Hlen : k < N).
    { assert (H : nth_error (map (fun j0 => percent (j0 + 1) N) (seq 0 N)) k
                  <> None) by congruence.
      apply nth_error_Some in H. now rewrite length_map, length_seq in H. }
    rewrite nth_error_map, nth_error_seq in Hj, Hk.
    destruct (Nat.ltb_spec j N); [|lia].
    destruct (Nat.ltb_spec k N); [|lia].
    simpl in Hj, Hk. injection Hj as <-. injection Hk as <-.
    apply percent_increasing; lia.
  - intros HN. destruct N as [|n]; [lia|].
    rewrite seq_S, map_app. simpl. rewrite last_last.
    rewrite Nat.add_1_r. apply percent_full. lia.
Qed.

(** The statement above on a batch of two objects. *)
Lemma progress_values_witness :
  (forall q m, (fun (_ : Q) (_ : jsstring) => @None JsThrown) q m = None)
  /\ map fst (snd (fst (simulateFileOperation isoStub (lit "TypeError") 0
                          (lit "move_files")
                          (map Some [mkView (Some (lit "a")) None;
                                     mkView None (Some (lit "/b"))])
                          (Some (fun _ _ => None)) idle)))
     = [percent 1 2; percent 2 2].
Proof.
  split; [reflexivity|].
  exact (proj1 (progress_values isoStub (lit "TypeError") 0 (lit "move_files")
                  [mkView (Some (lit "a")) None;
                   mkView None (Some (lit "/b"))]
                  (fun _ _ => None) idle (fun _ _ => eq_refl))).
Defined.

(** X6. With a progress callback that returns normally, a batch succeeds
    exactly when it contains no [null] element: then the result counts all
    its items, otherwise it is the failure carrying the [TypeError]. *)
Theorem batch_fails_iff_null_item
        (toISOString : nat -> jsstring) (typeErrorMessage : jsstring)
        (now : nat) (operationType : jsstring)
        (items : list (option ItemView))
        (onProgress : option ProgressCallback) (st : HookState) :
  quiet onProgress ->
  let result := fst (fst (simulateFileOperation toISOString typeErrorMessage
                            now operationType items onProgress st)) in
  (~ In None items -> result = Succeeded (length items))
  /\ (In None items -> result = Failed (ErrorInstance typeErrorMessage)).
Proof.
  intros Hq result. subst result.
  destruct (items_split items) as (views & tail & -> & [->|[post ->]]).
  - rewrite app_nil_r.
    destruct (simulate_objects toISOString typeErrorMessage now operationType
                views onProgress st Hq) as (E & _).
    rewrite E, length_map. split; [reflexivity|].
    intros H. apply in_map_iff in H. destruct H as (v & Hv & _).
    discriminate.
  - destruct (simulate_null_item toISOString typeErrorMessage now
                operationType views post onProgress st Hq) as (E & _).
    rewrite E. split; [|reflexivity].
    intros H. exfalso. apply H. apply in_or_app. right. now left.
Qed.

(** The statement above on the batch whose second element is [null]. *)
Lemma batch_fails_iff_null_item_witness :
  quiet silent
  /\ fst (fst (simulateFileOperation isoStub (lit "TypeError") 0
                 (lit "move_files") batchWithNull silent idle))
     = Failed (ErrorInstance (lit "TypeError")).
Proof.
  assert (H : quiet silent) by (intros q m; reflexivity).
  split; [exact H|].
  apply (batch_fails_iff_null_item isoStub (lit "TypeError") 0
           (lit "move_files") batchWithNull silent idle H).
  unfold batchWithNull. right. now left.
Defined.

Lemma executor_log_entries
        (toISOString : nat -> jsstring) (typeErrorMessage : jsstring)
        (now : nat) (operationType : jsstring)
        (items : list (option ItemView))
        (onProgress : option ProgressCallback) (st : HookState) :
  let r := simulateFileOperation toISOString typeErrorMessage now
             operationType items onProgress st in
  exists entry rest,
    operations (snd r) = entry :: rest
    /\ Operation.id entry = toString now
    /\ Operation.type entry = operationType
    /\ Operation.timestamp entry = toISOString now
    /\ Operation.status entry = finalStatus (fst (fst r))
    /\ Forall2 (fun old new =>
                  (Operation.id old <> toString now -> new = old)
                  /\ (Operation.id old = toString now ->
                      Operation.status new = finalStatus (fst (fst r))
                      /\ Operation.details new = Operation.details entry
                      /\ Operation.type new = Operation.type old))
               (operations st) rest.
Proof.
  cbn zeta.
  assert (E : exists details,
             operations (snd (simulateFileOperation toISOString
                                typeErrorMessage now operationType items
                                onProgress st))
             = updateOperation (toString now)
                 (finalStatus (fst (fst (simulateFileOperation toISOString
                                           typeErrorMessage now operationType
                                           items onProgress st))))
                 details
                 (Operation.mk (toString now) operationType (toISOString now)
                    (lit "Processing " ++ toString (length items)
                     ++ lit " items") pending
                  :: operations st)).
  { unfold simulateFileOperation, addOperation.
    destruct (processItems _ _ _ _ _) as [calls [e|]]; eexists; reflexivity. }
  destruct E as [details E]. rewrite E.
  unfold updateOperation at 1.
  cbn [map Operation.id Operation.type Operation.timestamp].
  rewrite (proj2 (eqb_eq (toString now) (toString now)) eq_refl).
  do 2 eexists. split; [reflexivity|].
  cbn [Operation.id Operation.type Operation.timestamp Operation.status
       Operation.details].
  repeat (split; [reflexivity|]).
  eapply Forall2_impl;
    [|exact (updateOperation_entries (toString now) _ details
               (operations st))].
  intros old new [H1 H2]. split; [exact H1|].
  intros Hid. rewrite (H2 Hid). auto.
Qed.

(** X7. The log after a run of the executor: it has one entry more; the new
    entry is first, carries the clock reading as id, the operation type, and
    the status [success] or [error] of the result, never [pending]; an older
    entry with another id is untouched, while an older entry that happens to
    carry the same id is overwritten with the new status and details. *)
Theorem executor_log
        (toISOString : nat -> jsstring) (typeErrorMessage : jsstring)
        (now : nat) (operationType : jsstring)
        (items : list (option ItemView))
        (onProgress : option ProgressCallback) (st : HookState) :
  let r := simulateFileOperation toISOString typeErrorMessage now
             operationType items onProgress st in
  exists entry rest,
    operations (snd r) = entry :: rest
    /\ Operation.id entry = toString now
    /\ Operation.type entry = operationType
    /\ Operation.timestamp entry = toISOString now
    /\ Operation.status entry = finalStatus (fst (fst r))
    /\ Forall2 (fun old new =>
                  (Operation.id old <> toString now -> new = old)
                  /\ (Operation.id old = toString now ->
                      Operation.status new = finalStatus (fst (fst r))
                      /\ Operation.details new = Operation.details entry
                      /\ Operation.type new = Operation.type old))
               (operations st) rest.
Proof. exact (executor_log_entries toISOString typeErrorMessage now operationType items onProgress st). Qed.

(** X8. [updateOperation] keeps the length and order of the log, rewrites
    status and details of exactly the entries with the given id and leaves
    their id, type and timestamp; for an id that is not in the log it changes
    nothing; applying the same update twice is the same as applying it
    once. *)
Theorem update_operation_by_id
        (id : jsstring) (status : OpStatus) (details : jsstring)
        (ops : list Operation.t) :
  Forall2 (fun old new =>
             (Operation.id old <> id -> new = old)
             /\ (Operation.id old = id ->
                 new = Operation.mk id (Operation.type old)
                                    (Operation.timestamp old) details status))
          ops (updateOperation id status details ops)
  /\ (~ In id (map Operation.id ops) ->
      updateOperation id status details ops = ops)
  /\ updateOperation id status details
                     (updateOperation id status details ops)
     = updateOperation id status details ops.
Proof.
  split; [apply updateOperation_entries|]. split.
  - induction ops as [|op rest IH]; intros H; simpl; [reflexivity|].
    simpl in H.
    destruct (JS.eqb (Operation.id op) id) eqn:E.
    + apply eqb_eq in E. tauto.
    + f_equal. apply IH. tauto.
  - induction ops as [|op rest IH]; simpl; [reflexivity|].
    rewrite IH. f_equal.
    destruct (JS.eqb (Operation.id op) id) eqn:E; simpl.
    + apply eqb_eq in E. subst id. now rewrite (proj2 (eqb_eq _ _) eq_refl).
    + now rewrite E.
Qed.

Lemma undo_effect
        (toISOString : nat -> jsstring) (now : nat) (st : HookState) :
  let r := undoLastOperation toISOString now st in
  fst r = HistoryDialog.canUndo (operations st)
  /\ isProcessing (snd r) = isProcessing st
  /\ (fst r = false -> snd r = st)
  /\ (fst r = true ->
      exists pre last post,
        operations st = pre ++ last :: post
        /\ Forall (fun op => isSuccess op = false) pre
        /\ isSuccess last = true
        /\ operations (snd r)
           = Operation.mk (toString now) (lit "undo") (toISOString now)
                          (lit "Undoing: " ++ Operation.type last) success
             :: operations st).
Proof.
  cbn zeta. unfold undoLastOperation, HistoryDialog.canUndo.
  destruct st as [ops busy]. cbn [operations isProcessing].
  induction ops as [|op rest IH]; cbn [find existsb].
  - repeat split; try reflexivity. discriminate.
  - destruct (isSuccess op) eqn:E.
    + cbn. repeat split; try discriminate.
      intros _. exists [], op, rest. repeat split; auto.
    + cbn [orb]. destruct (find isSuccess rest) as [l|] eqn:Ef.
      * cbn in *. destruct IH as (H1 & _ & _ & H4).
        repeat split; try assumption; try discriminate.
        intros _. destruct (H4 eq_refl) as (pre & last & post & Hs & Hp & Hl & Ho).
        injection Ho as Ho. exists (op :: pre), last, post.
        rewrite Hs. repeat split; auto. now rewrite Ho.
      * cbn in *. destruct IH as (H1 & _). repeat split; auto.
        discriminate.
Qed.

(** X9. [undoLastOperation] returns [true] exactly when the history dialog
    shows its undo button, that is when the log has a [success] entry.  It
    then adds one [undo] entry with status [success] that names the type of
    the first (most recent) [success] entry, and removes or reverts nothing;
    otherwise it leaves the log as it is. *)
Theorem undo_only_logs
        (toISOString : nat -> jsstring) (now : nat) (st : HookState) :
  let r := undoLastOperation toISOString now st in
  fst r = HistoryDialog.canUndo (operations st)
  /\ isProcessing (snd r) = isProcessing st
  /\ (fst r = false -> snd r = st)
  /\ (fst r = true ->
      exists pre last post,
        operations st = pre ++ last :: post
        /\ Forall (fun op => isSuccess op = false) pre
        /\ isSuccess last = true
        /\ operations (snd r)
           = Operation.mk (toString now) (lit "undo") (toISOString now)
                          (lit "Undoing: " ++ Operation.type last) success
             :: operations st).
Proof. exact (undo_effect toISOString now st). Qed.

(** X10. Once an undo has succeeded, every further undo succeeds too and
    undoes the undo entry itself: its details read "Undoing: undo". *)
Theorem undo_of_undo
        (toISOString : nat -> jsstring) (now now' : nat) (st : HookState) :
  fst (undoLastOperation toISOString now st) = true ->
  let st' := snd (undoLastOperation toISOString now st) in
  fst (undoLastOperation toISOString now' st') = true
  /\ operations (snd (undoLastOperation toISOString now' st'))
     = Operation.mk (toString now') (lit "undo") (toISOString now')
                    (lit "Undoing: undo") success
       :: operations st'.
Proof.
  intros H. cbn zeta.
  destruct (undo_effect toISOString now st) as (_ & _ & _ & H4).
  destruct (H4 H) as (pre & last & post & _ & _ & _ & Ho).
  unfold undoLastOperation at 1 3. rewrite Ho. cbn. auto.
Qed.

(** The statement above on a log with one successful operation. *)
Lemma undo_of_undo_witness :
  fst (undoLastOperation isoStub 10
         (mkHook [Operation.mk (lit "5") (lit "move_files") (lit "t")
                               (lit "done") success] false))
  = true
  /\ fst (undoLastOperation isoStub 20
            (snd (undoLastOperation isoStub 10
                    (mkHook [Operation.mk (lit "5") (lit "move_files")
                                          (lit "t") (lit "done") success]
                            false))))
     = true.
Proof.
  split; [reflexivity|].
  exact (proj1 (undo_of_undo isoStub 10 20
                  (mkHook [Operation.mk (lit "5") (lit "move_files")
                                        (lit "t") (lit "done") success]
                          false) eq_refl)).
Defined.

(** X11. A progress callback that throws ends the batch at the first item:
    the value it threw becomes the [error] of the result, one call was made
    and the later items are not processed.  On an empty batch the callback
    is never called and the batch succeeds with a count of 0. *)
Theorem throwing_callback_aborts
        (toISOString : nat -> jsstring) (typeErrorMessage : jsstring)
        (now : nat) (operationType : jsstring)
        (v : ItemView) (rest : list (option ItemView))
        (cb : ProgressCallback) (e : JsThrown) (st : HookState) :
  (forall q m, cb q m = Some e) ->
  let r := simulateFileOperation toISOString typeErrorMessage now
             operationType (Some v :: rest) (Some cb) st in
  let r0 := simulateFileOperation toISOString typeErrorMessage now
              operationType [] (Some cb) st in
  (fst (fst r) = Failed e /\ length (snd (fst r)) = 1
   /\ isProcessing (snd r) = false)
  /\ (fst (fst r0) = Succeeded 0 /\ snd (fst r0) = []).
Proof.
  intros Hc. cbn zeta. split; [|split; reflexivity].
  unfold simulateFileOperation.
  destruct (addOperation _ _ _ _ _ _) as [operationId ops].
  cbn [processItems]. rewrite Hc. cbn. auto.
Qed.

(** The statement above for a callback that always throws a non-[Error]
    value. *)
Lemma throwing_callback_aborts_witness :
  (forall q m, (fun (_ : Q) (_ : jsstring) => Some OtherValue) q m
               = Some OtherValue)
  /\ fst (fst (simulateFileOperation isoStub (lit "TypeError") 0
                 (lit "move_files")
                 [Some (mkView (Some (lit "a")) None); None]
                 (Some (fun _ _ => Some OtherValue)) idle))
     = Failed OtherValue.
Proof.
  split; [reflexivity|].
  exact (proj1 (proj1 (throwing_callback_aborts isoStub (lit "TypeError") 0
                         (lit "move_files") (mkView (Some (lit "a")) None)
                         [None] (fun _ _ => Some OtherValue) OtherValue idle
                         (fun _ _ => eq_refl)))).
Defined.

Lemma wrappers_succeed
        (F : Type) (toISOString : nat -> jsstring)
        (typeErrorMessage : jsstring) (now : nat)
        (definition dir : jsstring) (files : list FileItem.t)
        (assignments : list (Assignment F)) (mode : Mode)
        (onProgress : option ProgressCallback) (st : HookState) :
  quiet onProgress ->
  fst (fst (createStructure toISOString typeErrorMessage now definition dir
              onProgress st))
  = Succeeded (length (parseStructureDefinition definition))
  /\ fst (fst (moveFiles toISOString typeErrorMessage now files dir
                 onProgress st))
     = Succeeded (length files)
  /\ fst (fst (organizeFiles toISOString typeErrorMessage now assignments dir
                 mode onProgress st))
     = Succeeded (length assignments).
Proof.
  intros Hq. unfold createStructure, moveFiles, organizeFiles.
  split; [|split].
  - pose proof (simulate_objects toISOString typeErrorMessage now
                  (lit "create_structure")
                  (map (fun it => mkView (Some (name it)) (Some (path it)))
                       (parseStructureDefinition definition))
                  onProgress st Hq) as (E & _).
    rewrite map_map, length_map in E. exact E.
  - pose proof (simulate_objects toISOString typeErrorMessage now
                  (lit "move_files")
                  (map (fun f => mkView (Some (FileItem.name f))
                                        (Some (FileItem.path f))) files)
                  onProgress st Hq) as (E & _).
    rewrite map_map, length_map in E. exact E.
  - pose proof (simulate_objects toISOString typeErrorMessage now
                  (lit "organize_" ++ modeName mode)
                  (map (fun _ : Assignment F => mkView None None) assignments)
                  onProgress st Hq) as (E & _).
    rewrite map_map, length_map in E. exact E.
Qed.

(** X12. The three operations built on the executor cannot fail when the
    progress callback returns normally: [createStructure] reports as many
    items as the parser returns nodes for the text, [moveFiles] as many as
    there are files, [organizeFiles] as many as there are assignments,
    whatever the base directory, the target directory or the mode. *)
Theorem wrappers_always_succeed
        (F : Type) (toISOString : nat -> jsstring)
        (typeErrorMessage : jsstring) (now : nat)
        (definition dir : jsstring) (files : list FileItem.t)
        (assignments : list (Assignment F)) (mode : Mode)
        (onProgress : option ProgressCallback) (st : HookState) :
  quiet onProgress ->
  fst (fst (createStructure toISOString typeErrorMessage now definition dir
              onProgress st))
  = Succeeded (length (parseStructureDefinition definition))
  /\ fst (fst (moveFiles toISOString typeErrorMessage now files dir
                 onProgress st))
     = Succeeded (length files)
  /\ fst (fst (organizeFiles toISOString typeErrorMessage now assignments dir
                 mode onProgress st))
     = Succeeded (length assignments).
Proof. exact (wrappers_succeed F toISOString typeErrorMessage now definition dir files assignments mode onProgress st). Qed.

(** The statement above on the three-entry plan in move mode. *)
Lemma wrappers_always_succeed_witness :
  quiet silent
  /\ fst (fst (organizeFiles isoStub (lit "TypeError") 0 threeAssignments
                 (lit "/organized") move silent idle))
     = Succeeded 3.
Proof.
  assert (H : quiet silent) by (intros q m; reflexivity).
  split; [exact H|].
  exact (proj2 (proj2 (wrappers_always_succeed jsstring isoStub
                         (lit "TypeError") 0 [] (lit "/organized") []
                         threeAssignments move silent idle H))).
Defined.

(** X13. [handleCreateStructure] does nothing when the structure text or
    the base directory is blank; otherwise it always takes the success
    branch: the list of created items gets one line per parsed node, the
    icon of the node's kind, a space and the node's path, and the texts are
    unchanged. *)
Theorem handle_create_structure
        (toISOString : nat -> jsstring) (typeErrorMessage : jsstring)
        (now : nat) (st : EnhancedStructure.State) :
  let st' := EnhancedStructure.handleCreateStructure toISOString
               typeErrorMessage now st in
  ((trim (EnhancedStructure.currentStructure st) = []
    \/ trim (EnhancedStructure.baseDirectory st) = []) -> st' = st)
  /\ (trim (EnhancedStructure.currentStructure st) <> [] ->
      trim (EnhancedStructure.baseDirectory st) <> [] ->
      EnhancedStructure.createdItems st'
      = map EnhancedStructure.createdLine
            (parseStructureDefinition (EnhancedStructure.currentStructure st))
      /\ EnhancedStructure.currentStructure st'
         = EnhancedStructure.currentStructure st
      /\ EnhancedStructure.baseDirectory st'
         = EnhancedStructure.baseDirectory st
      /\ length (operations (EnhancedStructure.hook st'))
         = S (length (operations (EnhancedStructure.hook st)))).
Proof.
  cbn zeta. unfold EnhancedStructure.handleCreateStructure. split.
  - intros [H|H].
    + now rewrite H.
    + rewrite H. now destruct (negb _).
  - intros H1 H2.
    apply truthy_true in H1, H2. rewrite H1, H2. cbn [negb].
    assert (Hq : quiet (Some (fun (_ : Q) (_ : jsstring) => @None JsThrown)))
      by (intros q m; reflexivity).
    pose proof (wrappers_succeed unit toISOString typeErrorMessage
                  now (EnhancedStructure.currentStructure st)
                  (EnhancedStructure.baseDirectory st) [] [] copy
                  _ (EnhancedStructure.hook st) Hq) as (E & _).
    pose proof (executor_log_entries toISOString typeErrorMessage now
                  (lit "create_structure")
                  (map (viewItem)
                       (parseStructureDefinition
                          (EnhancedStructure.currentStructure st)))
                  (Some (fun _ _ => None)) (EnhancedStructure.hook st))
      as (entry & rest & Hl & _ & _ & _ & _ & Hf).
    unfold createStructure in *.
    destruct (simulateFileOperation _ _ _ _ _ _ _) as [[result calls] hook'].
    cbn [fst snd] in *. subst result. cbn.
    repeat split. rewrite Hl. cbn. f_equal.
    symmetry. eapply Forall2_length. exact Hf.
Qed.

Section LineNumberFacts.

Lemma split_single (sep : codeUnit) (s : jsstring) :
  ~ In sep s -> split sep s = [s].
Proof.
  induction s as [|c r IH]; intros H; simpl; [reflexivity|].
  destruct (N.eqb_spec c sep) as [->|Hc]; [exfalso; apply H; now left|].
  rewrite IH; [reflexivity|]. intros Hin. apply H. now right.
Qed.

(** [split] undoes [join] when no part contains the separator. *)
Lemma split_join (sep : codeUnit) (parts : list jsstring) :
  parts <> [] -> Forall (fun part => ~ In sep part) parts ->
  split sep (join sep parts) = parts.
Proof.
  induction parts as [|l rest IH]; intros Hne Hall; [contradiction|].
  inversion Hall as [|? ? Hl Hrest]; subst.
  destruct rest as [|l2 rest].
  - simpl. now apply split_single.
  - change (join sep (l :: l2 :: rest))
      with (l ++ sep :: join sep (l2 :: rest)).
    rewrite split_app, split_single by assumption.
    rewrite IH; [reflexivity|discriminate|assumption].
Qed.

Lemma uint_digits (d : Decimal.uint) :
  Forall (fun c => (48 <= c <= 57)%N) (lit (NilEmpty.string_of_uint d)).
Proof.
  induction d; simpl; constructor; try assumption; cbn; lia.
Qed.

Lemma toString_digits (n : nat) :
  Forall (fun c => (48 <= c <= 57)%N) (toString n).
Proof. apply uint_digits. Qed.

Lemma split_length (sep : codeUnit) (s : jsstring) :
  length (split sep s) = S (count_occ N.eq_dec s sep).
Proof.
  induction s as [|c r IH]; simpl; [reflexivity|].
  destruct (N.eqb_spec c sep) as [->|Hc].
  - simpl. rewrite IH. now destruct (N.eq_dec sep sep).
  - destruct (N.eq_dec c sep); [contradiction|].
    pose proof (split_nonempty sep r) as Hne.
    destruct (split sep r) as [|h t]; [contradiction|]. exact IH.
Qed.

End LineNumberFacts.

(** X14. The line-number gutter has exactly one number per line of the
    text: splitting the text of [getLineNumbers] at the line breaks gives
    the decimal numbers 1, 2, ..., n, where n is the number of lines of the
    structure text, that is one more than the number of its line breaks. *)
Theorem line_numbers_match_lines (currentStructure : jsstring) :
  let n := length (split LF currentStructure) in
  split LF (EnhancedStructure.getLineNumbers currentStructure)
  = map (fun i => toString (i + 1)) (seq 0 n)
  /\ length (split LF (EnhancedStructure.getLineNumbers currentStructure))
     = n
  /\ n = S (count_occ N.eq_dec currentStructure LF).
Proof.
  cbn zeta. unfold EnhancedStructure.getLineNumbers.
  assert (E : split LF (join LF (map (fun i => toString (i + 1))
                                     (seq 0 (length (split LF
                                                       currentStructure)))))
              = map (fun i => toString (i + 1))
                    (seq 0 (length (split LF currentStructure)))).
  { apply split_join.
    - pose proof (split_nonempty LF currentStructure) as Hne.
      destruct (split LF currentStructure); [contradiction|discriminate].
    - apply Forall_forall. intros part Hin. apply in_map_iff in Hin.
      destruct Hin as (i & <- & _). intros Hlf.
      pose proof (toString_digits (i + 1)) as Hd.
      rewrite Forall_forall in Hd. specialize (Hd LF Hlf).
      unfold LF in Hd. lia. }
  rewrite E. split; [reflexivity|]. split.
  - now rewrite length_map, length_seq.
  - apply split_length.
Qed.

Section ViewFacts.

Lemma assignedCount_le slots : assignedCount slots <= length slots.
Proof. unfold assignedCount. apply filter_length_le. Qed.

Lemma assignmentsOf_length st :
  length (assignmentsOf st) = assignedCount (targetSlots st).
Proof.
  unfold assignmentsOf, assignedCount, hasFile.
  induction (targetSlots st) as [|slot rest IH]; simpl; [reflexivity|].
  destruct (TargetSlot.assignedFile slot); simpl; now rewrite IH.
Qed.

Lemma percent_zero b : 0 < b -> (percent 0 b == 0)%Q.
Proof.
  intros Hb. unfold percent.
  assert (Hb' : ~ (inject_Z (Z.of_nat b) == 0)%Q).
  { intros H. change 0%Q with (inject_Z 0) in H.
    rewrite inject_Z_injective in H. lia. }
  simpl. field. exact Hb'.
Qed.

End ViewFacts.

(** X15. The completion percentage shown by the tab lies between 0 and 100
    and is 0 when there are no slots (no division by zero); it is 100
    exactly when every slot has a file.  The "Organize" and "Package"
    buttons are disabled exactly when the plan computed by their handlers
    is empty, so an enabled button never runs into the handler's
    "No files assigned" guard. *)
Theorem completion_percentage_bounds (st : State) :
  (0 <= completionPercentage (targetSlots st) <= 100)%Q
  /\ (targetSlots st = [] -> completionPercentage (targetSlots st) = 0%Q)
  /\ (targetSlots st <> [] ->
      ((completionPercentage (targetSlots st) == 100)%Q
       <-> Forall (fun slot => hasFile slot = true) (targetSlots st)))
  /\ (actionsDisabled (targetSlots st) = true <-> assignmentsOf st = []).
Proof.
  unfold completionPercentage.
  pose proof (assignedCount_le (targetSlots st)) as Hle.
  split; [|split; [|split]].
  - destruct (Nat.ltb_spec 0 (length (targetSlots st))) as [Hp|Hp];
      [|split; [apply Qle_refl|discriminate]].
    fold (percent (assignedCount (targetSlots st)) (length (targetSlots st))).
    destruct (assignedCount (targetSlots st)) as [|k] eqn:Ek.
    + rewrite (percent_zero _ Hp). split; [apply Qle_refl|discriminate].
    + destruct (percent_bounds (S k) (length (targetSlots st))) as [H1 H2];
        [lia|]. split; [now apply Qlt_le_weak|assumption].
  - intros ->. reflexivity.
  - intros Hne.
    destruct (Nat.ltb_spec 0 (length (targetSlots st))) as [Hp|Hp];
      [|destruct (targetSlots st); [contradiction|simpl in Hp; lia]].
    fold (percent (assignedCount (targetSlots st)) (length (targetSlots st))).
    assert (Hall : Forall (fun slot => hasFile slot = true) (targetSlots st)
                   <-> assignedCount (targetSlots st)
                       = length (targetSlots st)).
    { unfold assignedCount. clear.
      induction (targetSlots st) as [|slot rest IH]; simpl.
      - split; [reflexivity|constructor].
      - pose proof (filter_length_le hasFile rest) as Hr.
        destruct (hasFile slot) eqn:E; simpl; split.
        + intros H. inversion H; subst. f_equal. now apply IH.
        + intros H. constructor; [assumption|]. apply IH. lia.
        + intros H. inversion H; subst. congruence.
        + intros H. lia. }
    rewrite Hall. split.
    + intros H.
      destruct (Nat.eq_dec (assignedCount (targetSlots st))
                           (length (targetSlots st))) as [E|E];
        [assumption|].
      assert (Hlt : assignedCount (targetSlots st) < length (targetSlots st))
        by lia.
      pose proof (percent_increasing _ _ (length (targetSlots st)) Hp Hlt)
        as Hi.
      rewrite (percent_full _ Hp), H in Hi.
      exfalso. exact (Qlt_irrefl _ Hi).
    + intros ->. now apply percent_full.
  - unfold actionsDisabled. rewrite Nat.eqb_eq, <- assignmentsOf_length.
    destruct (assignmentsOf st); simpl; split; congruence.
Qed.

(* ================================================================== *)
(** ** Further properties of the auto-assignment pass *)
(* ================================================================== *)

Section PassFacts.

Variable toLowerCase : jsstring -> jsstring.
Variable rand : nat -> Q.

Lemma orElse_nil (a : jsstring) : orElse a [] = a.
Proof. now destruct a. Qed.

Lemma find_first (A : Type) (p : A -> bool) (xs : list A) x :
  find p xs = Some x ->
  exists pre post,
    xs = pre ++ x :: post /\ Forall (fun y => p y = false) pre
    /\ p x = true.
Proof.
  induction xs as [|a r IH]; simpl; [discriminate|].
  destruct (p a) eqn:E.
  - intros H. injection H as <-. exists [], r. auto.
  - intros H. destruct (IH H) as (pre & post & -> & Hp & Hx).
    exists (a :: pre), post. auto.
Qed.

Lemma find_none_iff (A : Type) (p : A -> bool) (xs : list A) :
  find p xs = None <-> forall x, In x xs -> p x = false.
Proof.
  split; [apply find_none|].
  induction xs as [|a r IH]; intros H; simpl; [reflexivity|].
  rewrite (H a) by now left. apply IH. intros x Hx. apply H. now right.
Qed.

(** The two outcomes of one iteration, in full. *)
Lemma assignSlot_inv refs slot objs k c :
  (assignSlot toLowerCase rand refs slot (objs, k, c) = (slot, (objs, k, c))
   /\ (TargetSlot.isEmpty slot = false
       \/ find (isMatch toLowerCase objs (targetExtOf toLowerCase slot)) refs
          = None))
  \/ exists l f,
      TargetSlot.isEmpty slot = true
      /\ find (isMatch toLowerCase objs (targetExtOf toLowerCase slot)) refs
         = Some l
      /\ nth_error objs l = Some f
      /\ StagedFile.isStaged f = true
      /\ includes (toLowerCase (StagedFile.name f))
                  (targetExtOf toLowerCase slot) = true
      /\ assignSlot toLowerCase rand refs slot (objs, k, c)
         = (TargetSlot.mk (TargetSlot.id slot) (TargetSlot.path slot)
                          (TargetSlot.type slot) (Some l)
                          TargetSlot.autoMatched (Some (75 + rand k * 20)%Q),
            (writeAt l (assignedCopy f (TargetSlot.path slot)) objs,
             k + 1, c + 1)).
Proof.
  unfold assignSlot.
  destruct (TargetSlot.isEmpty slot); [|left; auto].
  destruct (find _ refs) as [l|] eqn:Ef; [|left; auto].
  pose proof (find_some _ _ Ef) as [_ Hm]. unfold isMatch in Hm.
  destruct (nth_error objs l) as [f|] eqn:El; [|discriminate].
  apply andb_true_iff in Hm. destruct Hm as [Hs Hi].
  rewrite orElse_nil in Hi.
  right. exists l, f. repeat split; assumption.
Qed.

Lemma isMatch_writeAt_other objs ext l0 v l :
  l0 <> l ->
  isMatch toLowerCase (writeAt l0 v objs) ext l
  = isMatch toLowerCase objs ext l.
Proof.
  intros H. unfold isMatch. now rewrite nth_error_writeAt_other.
Qed.

Lemma isMatch_written objs ext l f p :
  isMatch toLowerCase (writeAt l (assignedCopy f p) objs) ext l = false.
Proof.
  unfold isMatch.
  destruct (Nat.lt_ge_cases l (length objs)) as [H|H].
  - now rewrite nth_error_writeAt_same.
  - destruct (nth_error (writeAt l (assignedCopy f p) objs) l) eqn:E;
      [|reflexivity].
    exfalso. assert (Hl : l < length (writeAt l (assignedCopy f p) objs))
      by (apply nth_error_Some; congruence).
    clear E. revert l H Hl.
    induction objs as [|x r IH]; intros [|l] H Hl; simpl in *; try lia.
    apply (IH l); lia.
Qed.

(** A reference that does not match stays that way for the rest of the
    pass: files only leave the ['staged'] status. *)
Lemma assignLoop_no_new_match refs slots ext l : forall objs k c,
  isMatch toLowerCase objs ext l = false ->
  isMatch toLowerCase
    (fst (fst (snd (assignLoop toLowerCase rand refs slots (objs, k, c)))))
    ext l = false.
Proof.
  induction slots as [|slot rest IH]; intros objs k c H; cbn [assignLoop];
    [assumption|].
  destruct (assignSlot_inv refs slot objs k c)
    as [[E _]|(l0 & f & _ & _ & _ & _ & _ & E)]; rewrite E.
  - specialize (IH objs k c H).
    destruct (assignLoop _ _ _ _ _) as [rest' [[objs' k'] c']]. exact IH.
  - assert (H' : isMatch toLowerCase
                   (writeAt l0 (assignedCopy f (TargetSlot.path slot)) objs)
                   ext l = false).
    { destruct (Nat.eq_dec l0 l) as [<-|Hne].
      - apply isMatch_written.
      - now rewrite isMatch_writeAt_other. }
    specialize (IH _ (k + 1) (c + 1) H').
    destruct (assignLoop _ _ _ _ _) as [rest' [[objs' k'] c']]. exact IH.
Qed.

Lemma targetExtOf_path s s' :
  TargetSlot.path s' = TargetSlot.path s ->
  targetExtOf toLowerCase s' = targetExtOf toLowerCase s.
Proof. unfold targetExtOf. now intros ->. Qed.

(** Soundness: every slot the loop changes was empty and is filled with a
    file of the staging list that was ['staged'] at the start and whose
    lower-cased name contains the slot's lower-cased extension; at the end
    that file is ['assigned'] to the slot's path. *)
Lemma assignLoop_sound refs slots : forall objs k c,
  let r := assignLoop toLowerCase rand refs slots (objs, k, c) in
  Forall2 (fun s s' =>
             s' = s
             \/ (TargetSlot.isEmpty s = true
                 /\ filledBy toLowerCase objs (fst (fst (snd r))) refs s s'))
          slots (fst r).
Proof.
  induction slots as [|slot rest IH]; intros objs k c; cbn zeta;
    cbn [assignLoop]; [constructor|].
  destruct (assignSlot_inv refs slot objs k c)
    as [[E _]|(l & f & He & Hf & Hl & Hs & Hi & E)]; rewrite E.
  - specialize (IH objs k c). cbn zeta in IH.
    destruct (assignLoop _ _ _ _ _) as [rest' [[objs' k'] c']].
    cbn [fst snd] in *. constructor; [now left|exact IH].
  - pose proof (assignLoop_keeps_settled toLowerCase rand refs rest l
                  (assignedCopy f (TargetSlot.path slot))
                  (writeAt l (assignedCopy f (TargetSlot.path slot)) objs)
                  (k + 1) (c + 1)) as Hkeep.
    specialize (IH (writeAt l (assignedCopy f (TargetSlot.path slot)) objs)
                   (k + 1) (c + 1)).
    cbn zeta in IH.
    destruct (assignLoop _ _ _ _ _) as [rest' [[objs' k'] c']].
    cbn [fst snd] in *.
    assert (Hlt : l < length objs) by (apply nth_error_Some; congruence).
    constructor.
    + right. split; [assumption|]. exists l, f.
      pose proof (find_some _ _ Hf) as [Hin _].
      repeat split; try assumption; try reflexivity.
      apply Hkeep; [now apply nth_error_writeAt_same|reflexivity].
    + eapply Forall2_impl; [|exact IH].
      intros s s' [->|(Hes & l' & f' & H1 & H2 & H3 & H4 & H5 & H6 & H7 & H8
                       & H9)]; [now left|].
      right. split; [assumption|]. exists l', f'.
      repeat split; try assumption.
      destruct (Nat.eq_dec l l') as [<-|Hne].
      * rewrite nth_error_writeAt_same in H6 by assumption.
        injection H6 as <-. discriminate.
      * now rewrite nth_error_writeAt_other in H6.
Qed.

(** Maximality: a slot that is still empty after the loop has no matching
    staged file left. *)
Lemma assignLoop_maximal refs slots : forall objs k c,
  let r := assignLoop toLowerCase rand refs slots (objs, k, c) in
  Forall (fun s' =>
            TargetSlot.isEmpty s' = true ->
            forall l, In l refs ->
                      isMatch toLowerCase (fst (fst (snd r)))
                              (targetExtOf toLowerCase s') l = false)
         (fst r).
Proof.
  induction slots as [|slot rest IH]; intros objs k c; cbn zeta;
    cbn [assignLoop]; [constructor|].
  destruct (assignSlot_inv refs slot objs k c)
    as [[E Hcase]|(l & f & He & Hf & Hl & Hs & Hi & E)]; rewrite E.
  - pose proof (fun l H => assignLoop_no_new_match refs rest
                             (targetExtOf toLowerCase slot) l objs k c H)
      as Hmono.
    specialize (IH objs k c). cbn zeta in IH.
    destruct (assignLoop _ _ _ _ _) as [rest' [[objs' k'] c']].
    cbn [fst snd] in *. constructor; [|exact IH].
    intros Hempty l Hin. destruct Hcase as [Hne|Hnone]; [congruence|].
    apply Hmono. exact (proj1 (find_none_iff _ _ _) Hnone l Hin).
  - specialize (IH (writeAt l (assignedCopy f (TargetSlot.path slot)) objs)
                   (k + 1) (c + 1)).
    cbn zeta in IH.
    destruct (assignLoop _ _ _ _ _) as [rest' [[objs' k'] c']].
    cbn [fst snd] in *. constructor; [|exact IH].
    intros Hempty. discriminate.
Qed.

(** On a tab where no empty slot has a matching staged file the loop is
    the identity. *)
Lemma assignLoop_saturated refs slots objs k c :
  Forall (fun s =>
            TargetSlot.isEmpty s = true ->
            forall l, In l refs ->
                      isMatch toLowerCase objs (targetExtOf toLowerCase s) l
                      = false) slots ->
  assignLoop toLowerCase rand refs slots (objs, k, c)
  = (slots, (objs, k, c)).
Proof.
  induction slots as [|slot rest IH]; intros H; cbn [assignLoop];
    [reflexivity|].
  inversion H as [|? ? Hs Hrest]; subst.
  assert (E : assignSlot toLowerCase rand refs slot (objs, k, c)
              = (slot, (objs, k, c))).
  { unfold assignSlot. destruct (TargetSlot.isEmpty slot); [|reflexivity].
    now rewrite (proj2 (find_none_iff _ _ _) (Hs eq_refl)). }
  rewrite E, (IH Hrest). reflexivity.
Qed.

(** Bookkeeping: the draws made, the files counted and the slots filled are
    the same number. *)
Lemma assignLoop_counts refs slots : forall objs k c,
  let r := assignLoop toLowerCase rand refs slots (objs, k, c) in
  snd (fst (snd r)) + c = k + snd (snd r)
  /\ emptyCount slots + c = emptyCount (fst r) + snd (snd r)
  /\ length (fst r) = length slots.
Proof.
  induction slots as [|slot rest IH]; intros objs k c; cbn zeta;
    cbn [assignLoop]; [cbn; lia|].
  unfold emptyCount in *.
  destruct (assignSlot_inv refs slot objs k c)
    as [[E _]|(l & f & He & _ & _ & _ & _ & E)]; rewrite E.
  - specialize (IH objs k c). cbn zeta in IH.
    destruct (assignLoop _ _ _ _ _) as [rest' [[objs' k'] c']].
    cbn [fst snd filter length] in *.
    destruct (TargetSlot.isEmpty slot); cbn [length]; lia.
  - specialize (IH (writeAt l (assignedCopy f (TargetSlot.path slot)) objs)
                   (k + 1) (c + 1)).
    cbn zeta in IH.
    destruct (assignLoop _ _ _ _ _) as [rest' [[objs' k'] c']].
    cbn [fst snd filter length] in *. rewrite He.
    cbn [TargetSlot.isEmpty TargetSlot.status length]. lia.
Qed.

End PassFacts.

Section FirstFit.

Variable toLowerCase : jsstring -> jsstring.
Variable rand : nat -> Q.

Lemma empty_not_autoMatched (s : TargetSlot.t) :
  TargetSlot.isEmpty s = true ->
  TargetSlot.status s <> TargetSlot.autoMatched.
Proof. unfold TargetSlot.isEmpty. destruct (TargetSlot.status s); congruence. Qed.

(** The file a slot receives is the first one in staging order that
    matched when the loop reached the slot: every earlier reference that
    matched at the start of the loop was taken by an earlier slot. *)
Lemma assignLoop_first_fit refs slots : forall objs k c i s s' l,
  nth_error slots i = Some s ->
  nth_error (fst (assignLoop toLowerCase rand refs slots (objs, k, c))) i
  = Some s' ->
  TargetSlot.isEmpty s = true ->
  TargetSlot.status s' = TargetSlot.autoMatched ->
  TargetSlot.assignedFile s' = Some l ->
  exists pre post,
    refs = pre ++ l :: post
    /\ forall l',
        In l' pre ->
        isMatch toLowerCase objs (targetExtOf toLowerCase s) l' = true ->
        In l' (assignedLocs
                 (firstn i (fst (assignLoop toLowerCase rand refs slots
                                            (objs, k, c))))).
Proof.
  induction slots as [|slot rest IH]; intros objs k c i s s' l Hs Hs' He Hm Hl;
    [destruct i; discriminate|].
  cbn [assignLoop] in *.
  destruct (assignSlot_inv toLowerCase rand refs slot objs k c)
    as [[E _]|(l0 & f & He0 & Hf & Hl0 & Hst & Hi & E)]; rewrite E in *.
  - specialize (IH objs k c).
    destruct (assignLoop _ _ _ _ _) as [rest' [[objs' k'] c']].
    cbn [fst snd] in *. destruct i as [|i]; simpl in Hs, Hs'.
    + injection Hs as <-. injection Hs' as <-.
      exfalso. exact (empty_not_autoMatched _ He Hm).
    + destruct (IH i s s' l Hs Hs' He Hm Hl) as (pre & post & Hr & Hp).
      exists pre, post. split; [assumption|]. intros l' Hin Hmatch.
      unfold assignedLocs in *. cbn [firstn flat_map].
      apply in_or_app. right. now apply Hp.
  - specialize (IH (writeAt l0 (assignedCopy f (TargetSlot.path slot)) objs)
                   (k + 1) (c + 1)).
    destruct (assignLoop _ _ _ _ _) as [rest' [[objs' k'] c']].
    cbn [fst snd] in *. destruct i as [|i]; simpl in Hs, Hs'.
    + injection Hs as <-. injection Hs' as <-. simpl in Hl.
      injection Hl as <-.
      destruct (find_first _ _ _ _ Hf) as (pre & post & Hr & Hp & _).
      exists pre, post. split; [assumption|]. intros l' Hin Hmatch.
      rewrite Forall_forall in Hp. rewrite (Hp l' Hin) in Hmatch.
      discriminate.
    + destruct (IH i s s' l Hs Hs' He Hm Hl) as (pre & post & Hr & Hp).
      exists pre, post. split; [assumption|]. intros l' Hin Hmatch.
      unfold assignedLocs in *. cbn [firstn flat_map TargetSlot.assignedFile].
      destruct (Nat.eq_dec l0 l') as [<-|Hne]; [now left|].
      right. apply Hp; [assumption|].
      now rewrite isMatch_writeAt_other.
Qed.

(** A file held by a slot after the loop was held by a slot before it, or
    was ['staged'] when the loop started. *)
Lemma assignLoop_new_locs refs slots l : forall objs k c,
  In l (assignedLocs (fst (assignLoop toLowerCase rand refs slots
                                      (objs, k, c)))) ->
  In l (assignedLocs slots) \/ stagedAt objs l = true.
Proof.
  induction slots as [|slot rest IH]; intros objs k c H; cbn [assignLoop] in H;
    [now left|].
  destruct (assignSlot_inv toLowerCase rand refs slot objs k c)
    as [[E _]|(l0 & f & He0 & Hf & Hl0 & Hst & Hi & E)]; rewrite E in H.
  - specialize (IH objs k c).
    destruct (assignLoop _ _ _ _ _) as [rest' [[objs' k'] c']].
    cbn [fst snd] in *. unfold assignedLocs in *. cbn [flat_map] in *.
    apply in_app_or in H. destruct H as [H|H].
    + left. apply in_or_app. now left.
    + destruct (IH H) as [H'|H']; [|now right].
      left. apply in_or_app. now right.
  - specialize (IH (writeAt l0 (assignedCopy f (TargetSlot.path slot)) objs)
                   (k + 1) (c + 1)).
    destruct (assignLoop _ _ _ _ _) as [rest' [[objs' k'] c']].
    cbn [fst snd] in *. unfold assignedLocs in *.
    cbn [flat_map TargetSlot.assignedFile] in *.
    destruct H as [<-|H].
    + right. unfold stagedAt. now rewrite Hl0.
    + apply in_app_or in H. destruct H as [[]|H].
      destruct (IH H) as [H'|H'].
      * left. apply in_or_app. now right.
      * right. unfold stagedAt in *.
        destruct (Nat.eq_dec l0 l) as [<-|Hne].
        -- now rewrite Hl0.
        -- now rewrite nth_error_writeAt_other in H'.
Qed.

End FirstFit.

(** X16. Soundness of a pass.  A pass changes a slot only if the slot was
    empty, and then fills it with a file of the staging list that was
    ['staged'] before the pass and whose lower-cased name contains the
    slot's lower-cased extension; after the pass that file object is
    ['assigned'], its [targetPath] is the slot's path and its other fields
    are as before. *)
Theorem pass_sound
        (toLowerCase : jsstring -> jsstring) (toISOString : nat -> jsstring)
        (rand : nat -> Q) (now : nat) (st : State) :
  let st' := autoAssignFiles toLowerCase toISOString rand now st in
  Forall2 (fun s s' =>
             s' = s
             \/ (TargetSlot.isEmpty s = true
                 /\ filledBy toLowerCase (store st) (store st')
                             (stagedFiles st) s s'))
          (targetSlots st) (targetSlots st').
Proof.
  cbn zeta.
  destruct (autoAssignFiles_loop toLowerCase toISOString rand now st)
    as (-> & -> & _).
  apply assignLoop_sound.
Qed.

(** X17. Tie-break of a pass.  The file a slot receives is the earliest
    file in staging order that matches the slot and is still free: every
    file that stands before it in the staging list and matched the slot
    before the pass was given to a slot that comes earlier. *)
Theorem pass_first_fit
        (toLowerCase : jsstring -> jsstring) (toISOString : nat -> jsstring)
        (rand : nat -> Q) (now : nat) (st : State)
        (i : nat) (s s' : TargetSlot.t) (l : loc) :
  let st' := autoAssignFiles toLowerCase toISOString rand now st in
  nth_error (targetSlots st) i = Some s ->
  nth_error (targetSlots st') i = Some s' ->
  TargetSlot.isEmpty s = true ->
  TargetSlot.status s' = TargetSlot.autoMatched ->
  TargetSlot.assignedFile s' = Some l ->
  exists pre post,
    stagedFiles st = pre ++ l :: post
    /\ forall l',
        In l' pre ->
        isMatch toLowerCase (store st) (targetExtOf toLowerCase s) l' = true ->
        In l' (assignedLocs (firstn i (targetSlots st'))).
Proof.
  cbn zeta.
  destruct (autoAssignFiles_loop toLowerCase toISOString rand now st)
    as (-> & _).
  apply assignLoop_first_fit.
Qed.

(** The statement above on the third slot [c.pdf] of [builtState]: it
    receives the third staged file, because the first one, which matches
    too, went to the second slot. *)
Lemma pass_first_fit_witness :
  exists pre post,
    stagedFiles builtState = pre ++ 2 :: post
    /\ forall l',
        In l' pre ->
        isMatch asciiLower (store builtState)
                (targetExtOf asciiLower
                   (TargetSlot.mk (lit "slot_2") (lit "c.pdf") file None
                                  TargetSlot.empty None)) l' = true ->
        In l' (assignedLocs
                 (firstn 2 (targetSlots
                              (autoAssignFiles asciiLower isoStub drawHalf
                                               3000 builtState)))).
Proof.
  apply (pass_first_fit asciiLower isoStub drawHalf 3000 builtState 2
           (TargetSlot.mk (lit "slot_2") (lit "c.pdf") file None
                          TargetSlot.empty None)
           (TargetSlot.mk (lit "slot_2") (lit "c.pdf") file (Some 2)
                          TargetSlot.autoMatched
                          (Some (75 + drawHalf 6%nat * 20)%Q)));
    reflexivity.
Defined.

Lemma pass_leaves_no_match
        (toLowerCase : jsstring -> jsstring) (toISOString : nat -> jsstring)
        (rand : nat -> Q) (now : nat) (st : State) :
  let st' := autoAssignFiles toLowerCase toISOString rand now st in
  Forall (fun s' =>
            TargetSlot.isEmpty s' = true ->
            forall l, In l (stagedFiles st') ->
                      isMatch toLowerCase (store st')
                              (targetExtOf toLowerCase s') l = false)
         (targetSlots st').
Proof.
  cbn zeta.
  destruct (autoAssignFiles_loop toLowerCase toISOString rand now st)
    as (-> & -> & _ & ->).
  apply assignLoop_maximal.
Qed.

(** X18. Maximality of a pass.  After a pass, no slot that is still empty
    has a matching file left: no file of the staging list is both
    ['staged'] and has a lower-cased name that contains the slot's
    lower-cased extension. *)
Theorem pass_maximal
        (toLowerCase : jsstring -> jsstring) (toISOString : nat -> jsstring)
        (rand : nat -> Q) (now : nat) (st : State) :
  let st' := autoAssignFiles toLowerCase toISOString rand now st in
  Forall (fun s' =>
            TargetSlot.isEmpty s' = true ->
            forall l, In l (stagedFiles st') ->
                      isMatch toLowerCase (store st')
                              (targetExtOf toLowerCase s') l = false)
         (targetSlots st').
Proof. exact (pass_leaves_no_match toLowerCase toISOString rand now st). Qed.

(** X19. A second pass right after a pass changes nothing: slots, file
    objects, staging list and the number of random draws stay as the first
    pass left them. *)
Theorem pass_idempotent
        (toLowerCase : jsstring -> jsstring) (toISOString : nat -> jsstring)
        (rand : nat -> Q) (now now' : nat) (st : State) :
  let st1 := autoAssignFiles toLowerCase toISOString rand now st in
  let st2 := autoAssignFiles toLowerCase toISOString rand now' st1 in
  targetSlots st2 = targetSlots st1
  /\ store st2 = store st1
  /\ stagedFiles st2 = stagedFiles st1
  /\ cursor st2 = cursor st1.
Proof.
  cbn zeta.
  pose proof (pass_leaves_no_match toLowerCase toISOString rand now st) as Hmax.
  cbn zeta in Hmax.
  destruct (autoAssignFiles_loop toLowerCase toISOString rand now'
              (autoAssignFiles toLowerCase toISOString rand now st))
    as (-> & -> & -> & ->).
  rewrite (assignLoop_saturated toLowerCase rand _ _ _ _ _ Hmax).
  auto.
Qed.

(** X20. Bookkeeping of a pass.  The number of slots filled, the number of
    random draws made and the number in the logged message are the same;
    the number of slots does not change.  When the staging list or the slot
    list is empty the pass returns the state as it is and logs nothing;
    otherwise it logs one [auto_assign] entry "Auto-assigned n files". *)
Theorem pass_bookkeeping
        (toLowerCase : jsstring -> jsstring) (toISOString : nat -> jsstring)
        (rand : nat -> Q) (now : nat) (st : State) :
  let st' := autoAssignFiles toLowerCase toISOString rand now st in
  let n := emptyCount (targetSlots st) - emptyCount (targetSlots st') in
  emptyCount (targetSlots st) = emptyCount (targetSlots st') + n
  /\ cursor st' = cursor st + n
  /\ length (targetSlots st') = length (targetSlots st)
  /\ ((stagedFiles st = [] \/ targetSlots st = []) -> st' = st)
  /\ (stagedFiles st <> [] -> targetSlots st <> [] ->
      contextOperations st'
      = DirectoryContext.mk (toString now) (lit "auto_assign")
          (lit "Auto-assigned " ++ toString n ++ lit " files") success
          (toISOString now)
        :: contextOperations st).
Proof.
  cbn zeta.
  pose proof (assignLoop_counts toLowerCase rand (stagedFiles st)
                (targetSlots st) (store st) (cursor st) 0) as Hc.
  cbn zeta in Hc.
  destruct (autoAssignFiles_loop toLowerCase toISOString rand now st)
    as (Hs & _ & Hk & _).
  rewrite <- Hs, <- Hk in Hc. destruct Hc as (H1 & H2 & H3).
  split; [lia|]. split; [lia|]. split; [assumption|]. split.
  - unfold autoAssignFiles. intros [->| ->]; [reflexivity|].
    simpl. now rewrite orb_true_r.
  - intros Hf Hsl. clear Hs Hk.
    unfold autoAssignFiles in *.
    destruct (stagedFiles st) as [|l refs] eqn:Ef; [contradiction|].
    destruct (targetSlots st) as [|slot rest] eqn:Es; [contradiction|].
    cbn [length Nat.eqb orb] in *.
    destruct (assignLoop _ _ _ _ _) as [slots' [[objs k] c]].
    cbn [targetSlots cursor contextOperations fst snd] in *.
    unfold DirectoryContext.addOperation.
    replace (emptyCount (slot :: rest) - emptyCount slots') with c by lia.
    reflexivity.
Qed.

(** X21. Rebuilding the skeleton does not release files.  After a build of
    a non-blank structure every slot is empty, but the file objects keep
    their status; so a file that was not ['staged'] before the build is in
    no slot after a following pass. *)
Theorem rebuild_strands_assigned_files
        (toLowerCase : jsstring -> jsstring) (toISOString : nat -> jsstring)
        (rand : nat -> Q) (now now' : nat) (st : State) (l : loc) :
  trim (targetStructure st) <> [] ->
  stagedAt (store st) l = false ->
  let built := buildTargetStructure toISOString now st in
  assignedLocs (targetSlots built) = []
  /\ store built = store st
  /\ ~ In l (assignedLocs
               (targetSlots (autoAssignFiles toLowerCase toISOString rand
                                             now' built))).
Proof.
  intros Ht Hl. cbn zeta.
  unfold buildTargetStructure.
  apply truthy_true in Ht. rewrite Ht. cbn [negb].
  split; [apply slotsFrom_unassigned|]. split; [reflexivity|].
  intros Hin.
  destruct (autoAssignFiles_loop toLowerCase toISOString rand now'
              (mkState (store st) (stagedFiles st) (targetStructure st)
                 (buildSlots (targetStructure st)) (cursor st) (hook st)
                 (DirectoryContext.addOperation toISOString now
                    (lit "build_target_structure")
                    (lit "Created "
                     ++ toString (length (buildSlots (targetStructure st)))
                     ++ lit " target slots") success (contextOperations st))))
    as (E & _).
  rewrite E in Hin. cbn [targetSlots stagedFiles store cursor] in Hin.
  apply assignLoop_new_locs in Hin. destruct Hin as [Hin|Hin].
  - unfold buildSlots in Hin. now rewrite slotsFrom_unassigned in Hin.
  - congruence.
Qed.

(** The statement above on the tab after [sameTickClicks]: the first
    document is assigned; after a rebuild and a new pass it is in no slot. *)
Lemma rebuild_strands_assigned_files_witness :
  ~ In 0 (assignedLocs
            (targetSlots
               (autoAssignFiles asciiLower isoStub drawHalf 5000
                  (buildTargetStructure isoStub 4000
                     (run asciiLower isoStub [] drawHalf sameTickClicks))))).
Proof.
  refine (proj2 (proj2 (rebuild_strands_assigned_files asciiLower isoStub
                          drawHalf 4000 5000
                          (run asciiLower isoStub [] drawHalf sameTickClicks)
                          0 _ _))).
  - vm_compute. discriminate.
  - reflexivity.
Defined.

(* ================================================================== *)
(** ** Staging, organising and the edge cases of matching *)
(* ================================================================== *)

Section OrganizeFacts.

Lemma idAssigned_iff st l :
  idAssigned (store st) (assignmentsOf st) l = true <-> sharesAssignedId st l.
Proof.
  unfold idAssigned, sharesAssignedId, assignmentsOf, assignedIds.
  destruct (idAt (store st) l) as [i|];
    [|split; [discriminate|intros (i & H & _); discriminate]].
  rewrite existsb_exists. split.
  - intros (a & Ha & Hj). exists i. split; [reflexivity|].
    apply in_flat_map in Ha. destruct Ha as (slot & Hslot & Ha).
    apply in_flat_map. exists slot. split; [assumption|].
    destruct (TargetSlot.assignedFile slot) as [l0|]; [|contradiction].
    destruct Ha as [<-|[]]. cbn [source] in Hj.
    destruct (idAt (store st) l0) as [j|]; [|discriminate].
    apply eqb_eq in Hj. subst j. now left.
  - intros (i' & Hi & Hin). injection Hi as <-.
    apply in_flat_map in Hin. destruct Hin as (slot & Hslot & Hin).
    destruct (TargetSlot.assignedFile slot) as [l0|] eqn:Ea; [|contradiction].
    exists (mkAssignment l0 (TargetSlot.path slot)). split.
    + apply in_flat_map. exists slot. split; [assumption|].
      rewrite Ea. now left.
    + cbn [source]. destruct (idAt (store st) l0) as [j|]; [|contradiction].
      destruct Hin as [->|[]]. now apply eqb_eq.
Qed.

Lemma organizeMap_refs objs0 assignments refs : forall objs,
  length objs0 <= length objs ->
  let r := organizeMap objs0 assignments refs objs in
  Forall2 (fun l l' =>
             (idAssigned objs0 assignments l = false /\ l' = l)
             \/ (idAssigned objs0 assignments l = true
                 /\ exists f, nth_error objs0 l = Some f
                              /\ nth_error (snd r) l' = Some (markOrganized f)
                              /\ length objs0 <= l'))
          refs (fst r).
Proof.
  induction refs as [|l rest IH]; intros objs Hlen; cbn zeta;
    cbn [organizeMap]; [constructor|].
  fold (idAssigned objs0 assignments l).
  destruct (idAssigned objs0 assignments l) eqn:Eh.
  - destruct (nth_error objs0 l) as [f|] eqn:El.
    + destruct (organizeMap_extends objs0 assignments rest
                  (objs ++ [markOrganized f])) as [extra Ex].
      specialize (IH (objs ++ [markOrganized f])). cbn zeta in IH.
      destruct (organizeMap _ _ rest (objs ++ _)) as [rest' objs'].
      cbn [fst snd] in *. constructor.
      * right. split; [exact Eh|]. exists f. split; [exact El|].
        split; [|assumption]. subst objs'.
        rewrite nth_error_app1 by (rewrite length_app; simpl; lia).
        rewrite nth_error_app2 by lia. now rewrite Nat.sub_diag.
      * apply IH. rewrite length_app. lia.
    + exfalso. unfold idAssigned, idAt in Eh. now rewrite El in Eh.
  - assert (E : (match nth_error objs0 l with
                 | Some f => organizeMap objs0 assignments rest objs
                 | None => organizeMap objs0 assignments rest objs
                 end) = organizeMap objs0 assignments rest objs)
      by now destruct (nth_error objs0 l).
    specialize (IH objs Hlen). cbn zeta in IH.
    destruct (organizeMap objs0 assignments rest objs) as [rest' objs'].
    cbn [fst snd] in *. constructor; [left; now split|exact IH].
Qed.

End OrganizeFacts.

Lemma organize_effect
        (toISOString : nat -> jsstring) (typeErrorMessage : jsstring)
        (now : nat) (st : State) :
  let st' := organizeAssignedFiles toISOString typeErrorMessage now st in
  targetSlots st' = targetSlots st
  /\ (forall l f, nth_error (store st) l = Some f ->
                  nth_error (store st') l = Some f)
  /\ Forall2 (fun l l' =>
                (~ sharesAssignedId st l /\ l' = l)
                \/ (sharesAssignedId st l
                    /\ exists f,
                        nth_error (store st) l = Some f
                        /\ nth_error (store st') l' = Some (markOrganized f)
                        /\ length (store st) <= l'))
             (stagedFiles st) (stagedFiles st').
Proof.
  cbn zeta. unfold organizeAssignedFiles.
  destruct (length (assignmentsOf st) =? 0) eqn:Eg.
  - split; [reflexivity|]. split; [auto|].
    apply Nat.eqb_eq in Eg.
    assert (Ha : assignmentsOf st = [])
      by (destruct (assignmentsOf st); [reflexivity|discriminate]).
    assert (Hno : forall l, ~ sharesAssignedId st l).
    { intros l H. apply idAssigned_iff in H. rewrite Ha in H.
      unfold idAssigned in H. destruct (idAt (store st) l); discriminate. }
    induction (stagedFiles st) as [|l rest IH]; constructor; auto.
  - assert (Hq : quiet uiProgress) by (intros q m; reflexivity).
    pose proof (wrappers_succeed loc toISOString typeErrorMessage now
                  [] (lit "/organized") [] (assignmentsOf st) copy uiProgress
                  (hook st) Hq) as (_ & _ & E).
    destruct (organizeFiles _ _ _ _ _ _ _ _) as [[result calls] hook'].
    cbn [fst] in E. subst result. cbn [resultSuccess].
    pose proof (organizeMap_refs (store st) (assignmentsOf st)
                  (stagedFiles st) (store st) (Nat.le_refl _)) as Hr.
    cbn zeta in Hr.
    destruct (organizeMap_extends (store st) (assignmentsOf st)
                (stagedFiles st) (store st)) as [extra Ex].
    destruct (organizeMap _ _ _ _) as [refs objs].
    cbn [fst snd targetSlots store stagedFiles] in *. subst objs.
    split; [reflexivity|]. split.
    + intros l f Hl. rewrite nth_error_app1; [assumption|].
      apply nth_error_Some. congruence.
    + eapply Forall2_impl; [|exact Hr].
      intros l l' [[Hn ->]|[Hy Hf]].
      * left. split; [|reflexivity]. intros H.
        apply idAssigned_iff in H. congruence.
      * right. split; [now apply idAssigned_iff|assumption].
Qed.

(** X22. Organising never fails and marks files by id.  The slots are left
    as they are and no existing file object is modified, so the object a
    slot holds stays ['assigned'].  In the staging list, a file whose id is
    the id of a file held by a slot is replaced, at the same position, by a
    fresh copy with status ['organized']; every other reference is kept.
    The test is on the id: a file that no slot holds is marked as organised
    too when it shares its id with an assigned file. *)
Theorem organize_marks_by_id
        (toISOString : nat -> jsstring) (typeErrorMessage : jsstring)
        (now : nat) (st : State) :
  let st' := organizeAssignedFiles toISOString typeErrorMessage now st in
  targetSlots st' = targetSlots st
  /\ (forall l f, nth_error (store st) l = Some f ->
                  nth_error (store st') l = Some f)
  /\ Forall2 (fun l l' =>
                (~ sharesAssignedId st l /\ l' = l)
                \/ (sharesAssignedId st l
                    /\ exists f,
                        nth_error (store st) l = Some f
                        /\ nth_error (store st') l' = Some (markOrganized f)
                        /\ length (store st) <= l'))
             (stagedFiles st) (stagedFiles st').
Proof. exact (organize_effect toISOString typeErrorMessage now st). Qed.

(** X23. A click on "Add Files" appends two fresh ['staged'] files without
    a target path, a PDF [document_n.pdf] of less than 1,000,000 bytes and a
    JPEG [image_n.jpg] of less than 2,000,000 bytes, where n is the length of
    the staging list plus one; it modifies no existing object, no slot and
    no earlier reference, and makes two random draws. *)
Theorem add_files_to_stage
        (rand : nat -> Q) (now1 now2 : nat) (st : State) :
  (forall k, 0 <= rand k < 1)%Q ->
  let st' := addFilesToStage rand now1 now2 st in
  let n := toString (length (stagedFiles st) + 1) in
  (exists size1 size2,
      store st'
      = store st
        ++ [ StagedFile.mk (toString now1)
                           (lit "document_" ++ n ++ lit ".pdf")
                           (lit "/files/document_" ++ n ++ lit ".pdf")
                           size1 (lit "application/pdf")
                           StagedFile.staged None;
             StagedFile.mk (toString (now2 + 1))
                           (lit "image_" ++ n ++ lit ".jpg")
                           (lit "/files/image_" ++ n ++ lit ".jpg")
                           size2 (lit "image/jpeg")
                           StagedFile.staged None ]
      /\ (0 <= size1 < 1000000)%Z /\ (0 <= size2 < 2000000)%Z)
  /\ stagedFiles st'
     = stagedFiles st ++ [length (store st); length (store st) + 1]
  /\ targetSlots st' = targetSlots st
  /\ cursor st' = cursor st + 2.
Proof.
  intros Hr. cbn zeta. unfold addFilesToStage. cbn.
  split; [|auto].
  do 2 eexists. split; [reflexivity|].
  assert (Hfloor : forall (r : Q) (m : Z),
             (0 < m)%Z -> (0 <= r < 1)%Q ->
             (0 <= Qfloor (r * inject_Z m) < m)%Z).
  { intros r m Hm [H0 H1].
    assert (Hm' : (0 < inject_Z m)%Q)
      by (change 0%Q with (inject_Z 0); rewrite <- Zlt_Qlt; lia).
    split.
    - rewrite <- (Qfloor_Z 0). apply Qfloor_resp_le.
      apply Qmult_le_0_compat; [assumption|now apply Qlt_le_weak].
    - assert (H2 : (r * inject_Z m < inject_Z m)%Q).
      { rewrite <- (Qmult_1_l (inject_Z m)) at 2.
        now apply Qmult_lt_compat_r. }
      pose proof (Qfloor_le (r * inject_Z m)) as H3.
      rewrite Zlt_Qlt. eapply Qle_lt_trans; eassumption. }
  split.
  - apply (Hfloor (rand (cursor st)) 1000000%Z); [lia|apply Hr].
  - apply (Hfloor (rand (cursor st + 1)) 2000000%Z); [lia|apply Hr].
Qed.

(** The statement above for the constant draw 1/2 on the initial tab. *)
Lemma add_files_to_stage_witness :
  (forall k, 0 <= drawHalf k < 1)%Q
  /\ cursor (addFilesToStage drawHalf 1000 1000 initial) = 2.
Proof.
  assert (H : (forall k, 0 <= drawHalf k < 1)%Q)
    by (intros k; unfold drawHalf; split; reflexivity || discriminate).
  split; [exact H|].
  exact (proj2 (proj2 (proj2 (add_files_to_stage drawHalf 1000 1000 initial
                                 H)))).
Defined.

Section DotFacts.

Lemma pop_trailing_dot (p : jsstring) : pop (split DOT (p ++ [DOT])) = [].
Proof.
  rewrite split_app. simpl. unfold pop. apply last_last.
Qed.

Lemma includes_nil (s : jsstring) : includes s [] = true.
Proof. destruct s; reflexivity. Qed.

Lemma find_pointwise (A : Type) (p q : A -> bool) (xs : list A) :
  (forall x, p x = q x) -> find p xs = find q xs.
Proof.
  intros H. induction xs as [|a r IH]; simpl; [reflexivity|].
  now rewrite H, IH.
Qed.

End DotFacts.

(** X24. A slot whose path ends with a dot has the empty extension, which
    every name contains: on a tab with that single empty slot, a pass gives
    it the first file of the staging list that is still ['staged'],
    whatever its name, and leaves it empty only when no file is
    ['staged']. *)
Theorem trailing_dot_matches_anything
        (toLowerCase : jsstring -> jsstring) (toISOString : nat -> jsstring)
        (rand : nat -> Q) (now : nat) (st : State)
        (s : TargetSlot.t) (p : jsstring) :
  toLowerCase [] = [] ->
  targetSlots st = [s] ->
  TargetSlot.isEmpty s = true ->
  TargetSlot.assignedFile s = None ->
  TargetSlot.path s = p ++ [DOT] ->
  map TargetSlot.assignedFile
      (targetSlots (autoAssignFiles toLowerCase toISOString rand now st))
  = [find (stagedAt (store st)) (stagedFiles st)].
Proof.
  intros Hlow Hs He Ha Hp.
  destruct (autoAssignFiles_loop toLowerCase toISOString rand now st)
    as (-> & _).
  rewrite Hs. cbn [assignLoop].
  assert (Hext : targetExtOf toLowerCase s = [])
    by (unfold targetExtOf; now rewrite Hp, pop_trailing_dot).
  assert (Hfind : find (isMatch toLowerCase (store st)
                                (targetExtOf toLowerCase s)) (stagedFiles st)
                  = find (stagedAt (store st)) (stagedFiles st)).
  { rewrite Hext. apply find_pointwise. intros l.
    unfold isMatch, stagedAt. destruct (nth_error (store st) l); [|reflexivity].
    cbn [orElse truthy]. now rewrite includes_nil, andb_true_r. }
  destruct (assignSlot_inv toLowerCase rand (stagedFiles st) s (store st)
              (cursor st) 0)
    as [[E [Hc|Hc]]|(l & f & _ & Hf & _ & _ & _ & E)]; rewrite E; cbn.
  - congruence.
  - rewrite <- Hfind, Hc, Ha. reflexivity.
  - rewrite <- Hfind, Hf. reflexivity.
Qed.

(** The statement above on [dotState]: the slot [report.] receives
    [photo.jpg], the only file that is still staged. *)
Lemma trailing_dot_matches_anything_witness :
  map TargetSlot.assignedFile
      (targetSlots (autoAssignFiles asciiLower isoStub drawHalf 0 dotState))
  = [Some 1].
Proof.
  exact (trailing_dot_matches_anything asciiLower isoStub drawHalf 0 dotState
           (TargetSlot.mk (lit "slot_0") (lit "report.") file None
                          TargetSlot.empty None)
           (lit "report") eq_refl eq_refl eq_refl eq_refl eq_refl).
Defined.


(* ================================================================== *)
(** ** Invariants of the staging list *)
(* ================================================================== *)

Section StagingFacts.

Variable toLowerCase : jsstring -> jsstring.
Variable toISOString : nat -> jsstring.
Variable typeErrorMessage : jsstring.
Variable rand : nat -> Q.

(** No action modifies a file object that is not ['staged']. *)
Lemma step_keeps_settled (st : State) (a : Action) l f :
  nth_error (store st) l = Some f -> StagedFile.isStaged f = false ->
  nth_error (store (step toLowerCase toISOString typeErrorMessage rand st a))
            l = Some f.
Proof.
  intros Hl Hs. destruct a as [n1 n2|text|now|now|now|today now]; cbn [step].
  - unfold addFilesToStage. cbn [store].
    rewrite nth_error_app1; [assumption|]. apply nth_error_Some. congruence.
  - assumption.
  - unfold buildTargetStructure. now destruct (negb _).
  - now apply auto_assign_keeps_settled_objects.
  - now apply (organize_effect toISOString typeErrorMessage now st).
  - unfold createOrganizedPackage.
    destruct (length (assignmentsOf st) =? 0); [assumption|].
    now destruct (createPackage _ _ _ _ _ _ _) as [[[result dl] calls] hook'].
Qed.

Lemma assignLoop_names refs slots l : forall objs k c,
  nameAt (fst (fst (snd (assignLoop toLowerCase rand refs slots
                                    (objs, k, c))))) l
  = nameAt objs l.
Proof.
  induction slots as [|slot rest IH]; intros objs k c; cbn [assignLoop];
    [reflexivity|].
  destruct (assignSlot_inv toLowerCase rand refs slot objs k c)
    as [[E _]|(l0 & f & _ & _ & Hl0 & _ & _ & E)]; rewrite E.
  - specialize (IH objs k c).
    destruct (assignLoop _ _ _ _ _) as [rest' [[objs' k'] c']]. exact IH.
  - specialize (IH (writeAt l0 (assignedCopy f (TargetSlot.path slot)) objs)
                   (k + 1) (c + 1)).
    destruct (assignLoop _ _ _ _ _) as [rest' [[objs' k'] c']].
    cbn [fst snd] in *. rewrite IH. unfold nameAt.
    destruct (Nat.eq_dec l0 l) as [<-|Hne].
    + rewrite nth_error_writeAt_same, Hl0;
        [reflexivity|apply nth_error_Some; congruence].
    + now rewrite nth_error_writeAt_other.
Qed.

Lemma stageNames_S m : stageNames (S m) = stageNames m ++ clickNames m.
Proof.
  unfold stageNames. rewrite seq_S, flat_map_app. reflexivity.
Qed.

Lemma stageNames_length m : length (stageNames m) = 2 * m.
Proof.
  induction m as [|m IH]; [reflexivity|].
  rewrite stageNames_S, length_app, IH. simpl. lia.
Qed.

Lemma clickNames_inj j j' x :
  In x (clickNames j) -> In x (clickNames j') -> j = j'.
Proof.
  unfold clickNames. intros [<-|[<-|[]]] [H|[H|[]]].
  - apply app_inv_head, app_inv_tail, toString_inj in H. lia.
  - vm_compute in H. discriminate.
  - vm_compute in H. discriminate.
  - apply app_inv_head, app_inv_tail, toString_inj in H. lia.
Qed.

Lemma stageNames_NoDup m : NoDup (stageNames m).
Proof.
  induction m as [|m IH]; [constructor|].
  rewrite stageNames_S. apply NoDup_app; [assumption| |].
  - unfold clickNames. constructor; [|constructor; [intros []|constructor]].
    intros [H|[]]. vm_compute in H. discriminate.
  - intros x Hx Hc. unfold stageNames in Hx. apply in_flat_map in Hx.
    destruct Hx as (j & Hj & Hx). apply in_seq in Hj.
    pose proof (clickNames_inj _ _ _ Hx Hc). lia.
Qed.

Lemma stagedNames_valid st m l :
  stagedNames st m -> In l (stagedFiles st) -> l < length (store st).
Proof.
  unfold stagedNames. intros H Hin.
  assert (Hs : In (nameAt (store st) l) (map Some (stageNames m)))
    by (rewrite <- H; now apply in_map).
  apply in_map_iff in Hs. destruct Hs as (x & Hx & _).
  unfold nameAt in Hx. apply nth_error_Some.
  destruct (nth_error (store st) l); [discriminate|discriminate].
Qed.

Lemma step_stagedNames (st : State) (a : Action) m :
  stagedNames st m ->
  stagedNames (step toLowerCase toISOString typeErrorMessage rand st a)
              (if isAdd a then S m else m).
Proof.
  intros H.
  assert (Hval : forall l, In l (stagedFiles st) -> l < length (store st))
    by (intros l Hl; now apply (stagedNames_valid st m)).
  destruct a as [n1 n2|text|now|now|now|today now]; cbn [step isAdd].
  - unfold stagedNames in *. unfold addFilesToStage.
    cbn [store stagedFiles].
    assert (Hlen : length (stagedFiles st) = 2 * m).
    { rewrite <- (length_map (nameAt (store st))), H, length_map.
      apply stageNames_length. }
    rewrite map_app, stageNames_S, map_app. f_equal.
    + rewrite <- H. apply map_ext_in. intros l Hl. unfold nameAt.
      rewrite nth_error_app1; [reflexivity|]. now apply Hval.
    + cbn [map]. unfold nameAt.
      rewrite !nth_error_app2 by lia.
      rewrite Nat.sub_diag.
      replace (length (store st) + 1 - length (store st)) with 1 by lia.
      cbn. rewrite Hlen. reflexivity.
  - exact H.
  - unfold buildTargetStructure. now destruct (negb _).
  - unfold stagedNames in *.
    destruct (autoAssignFiles_loop toLowerCase toISOString rand now st)
      as (_ & -> & _ & ->).
    rewrite <- H. apply map_ext. intros l. apply assignLoop_names.
  - unfold stagedNames in *.
    destruct (organize_effect toISOString typeErrorMessage now st)
      as (_ & Hold & Hrefs).
    rewrite <- H. clear H. revert Hval.
    induction Hrefs as [|l l' refs refs' Hl Hrest IH]; intros Hval;
      [reflexivity|].
    cbn [map]. f_equal; [|apply IH; intros x Hx; apply Hval; now right].
    destruct Hl as [[_ ->]|[_ (f & Hf & Hf' & _)]].
    + unfold nameAt. destruct (nth_error (store st) l) as [f|] eqn:E.
      * now rewrite (Hold _ _ E).
      * exfalso. apply nth_error_None in E.
        specialize (Hval l (or_introl eq_refl)). lia.
    + unfold nameAt. now rewrite Hf, Hf'.
  - unfold createOrganizedPackage.
    destruct (length (assignmentsOf st) =? 0); [assumption|].
    now destruct (createPackage _ _ _ _ _ _ _) as [[[result dl] calls] hook'].
Qed.

End StagingFacts.

(** X25. No sequence of actions of the tab releases or alters a file that
    has left the ['staged'] status: the object stays exactly as it is, with
    its status and target path, through clicks on "Add Files", edits and
    rebuilds of the structure, passes, organising and packaging.  There is
    no way back to ['staged']. *)
Theorem settled_objects_frozen
        (toLowerCase : jsstring -> jsstring) (toISOString : nat -> jsstring)
        (typeErrorMessage : jsstring) (rand : nat -> Q)
        (actions : list Action) (st : State) (l : loc) (f : StagedFile.t) :
  nth_error (store st) l = Some f ->
  StagedFile.isStaged f = false ->
  nth_error
    (store (fold_left (step toLowerCase toISOString typeErrorMessage rand)
                      actions st)) l
  = Some f.
Proof.
  revert st. induction actions as [|a rest IH]; intros st Hl Hs; simpl;
    [assumption|].
  apply IH; [|assumption]. now apply step_keeps_settled.
Qed.

(** The statement above on [mixedState], for a rebuild followed by a pass
    and an organise step. *)
Lemma settled_objects_frozen_witness :
  nth_error
    (store (fold_left (step asciiLower isoStub [] drawHalf)
                      [ BuildTargetStructure 10; AutoAssignFiles 20;
                        OrganizeAssignedFiles 30 ]
                      mixedState)) 1
  = nth_error (store mixedState) 1.
Proof.
  exact (settled_objects_frozen asciiLower isoStub [] drawHalf
           [ BuildTargetStructure 10; AutoAssignFiles 20;
             OrganizeAssignedFiles 30 ]
           mixedState 1
           (StagedFile.mk (lit "2") (lit "notes.pdf") (lit "/files/notes.pdf")
                          2048 (lit "application/pdf") StagedFile.assigned
                          (Some (lit "notes.pdf")))
           eq_refl eq_refl).
Defined.

Section StagedNamesRun.

Variable toLowerCase : jsstring -> jsstring.
Variable toISOString : nat -> jsstring.
Variable typeErrorMessage : jsstring.
Variable rand : nat -> Q.

Lemma run_stagedNames (actions : list Action) : forall st m,
  stagedNames st m ->
  stagedNames
    (fold_left (step toLowerCase toISOString typeErrorMessage rand) actions st)
    (m + length (filter isAdd actions)).
Proof.
  induction actions as [|a rest IH]; intros st m H; simpl.
  - now rewrite Nat.add_0_r.
  - pose proof (step_stagedNames toLowerCase toISOString typeErrorMessage
                  rand st a m H) as Hs.
    destruct (isAdd a); simpl.
    + rewrite Nat.add_succ_r. now apply (IH _ (S m)).
    + now apply IH.
Qed.

Lemma NoDup_map_Some (A : Type) (xs : list A) :
  NoDup xs -> NoDup (map Some xs).
Proof.
  induction 1 as [|x xs Hx Hnd IH]; simpl; constructor; [|assumption].
  intros H. apply in_map_iff in H. destruct H as (y & Hy & Hin).
  injection Hy as ->. contradiction.
Qed.

End StagedNamesRun.

(** X26. The names of the staging list are kept in step with its length:
    from a tab whose staging list is named, in order, [document_1.pdf],
    [image_1.jpg], [document_3.pdf], [image_3.jpg], ... (as the initial,
    empty one is), every sequence of actions leads to a tab whose staging
    list has an even length and is named in that way up to its length; in
    particular the names in the staging list are pairwise distinct, which
    the ids are not. *)
Theorem staged_names_distinct
        (toLowerCase : jsstring -> jsstring) (toISOString : nat -> jsstring)
        (typeErrorMessage : jsstring) (rand : nat -> Q)
        (actions : list Action) (st : State) (m : nat) :
  stagedNames st m ->
  let st' := fold_left (step toLowerCase toISOString typeErrorMessage rand)
                       actions st in
  exists m',
    length (stagedFiles st') = 2 * m'
    /\ map (nameAt (store st')) (stagedFiles st') = map Some (stageNames m')
    /\ NoDup (map (nameAt (store st')) (stagedFiles st')).
Proof.
  intros Hm. cbn zeta.
  pose proof (run_stagedNames toLowerCase toISOString typeErrorMessage rand
                actions st m Hm) as H.
  exists (m + length (filter isAdd actions)).
  unfold stagedNames in H. split; [|split].
  - rewrite <- (length_map
                  (nameAt (store (fold_left
                                    (step toLowerCase toISOString
                                          typeErrorMessage rand)
                                    actions st)))),
            H, length_map.
    apply stageNames_length.
  - exact H.
  - rewrite H. apply NoDup_map_Some, stageNames_NoDup.
Qed.

(** The statement above from the initial tab, for the actions of
    [sameTickClicks]. *)
Lemma staged_names_distinct_witness :
  exists m',
    length (stagedFiles (run asciiLower isoStub [] drawHalf sameTickClicks))
    = 2 * m'
    /\ map (nameAt (store (run asciiLower isoStub [] drawHalf
                               sameTickClicks)))
           (stagedFiles (run asciiLower isoStub [] drawHalf sameTickClicks))
       = map Some (stageNames m')
    /\ NoDup (map (nameAt (store (run asciiLower isoStub [] drawHalf
                                      sameTickClicks)))
                  (stagedFiles (run asciiLower isoStub [] drawHalf
                                    sameTickClicks))).
Proof.
  exact (staged_names_distinct asciiLower isoStub [] drawHalf sameTickClicks
           initial 0 eq_refl).
Defined.
